(** * github-search-syntax: the filter parser, embedded and verified

    The program is one TypeScript module: fifteen token definitions, a
    chevrotain grammar with error recovery switched on, a visitor that
    folds the concrete syntax tree into filter objects, and [parse],
    which chains the three.

    Strings are sequences of UTF-16 code units, as in JavaScript; a code
    unit is a number in [N].  The tokenizer and the grammar engine come
    from the chevrotain library: their algorithms (first pattern in
    definition order, [longer_alt], LL(k) look-ahead, single-token
    repair, re-synchronisation) are written out below for the token
    list and the rules of this program. *)

From Stdlib Require Import String Ascii NArith Bool Arith List Lia.
Import ListNotations.


(** ** Text *)

Definition code_unit := N.
Definition text := list code_unit.

(** A source literal, one code unit per character. *)
Definition js (s : string) : text := map N_of_ascii (list_ascii_of_string s).

Local Open Scope bool_scope.
Local Open Scope N_scope.

Definition eqc (c d : code_unit) : bool := N.eqb c d.
Definition between (lo hi c : code_unit) : bool := (N.leb lo c && N.leb c hi)%bool.

Definition backslash : code_unit := 92%N.
Definition colon : code_unit := 58%N.
Definition dot : code_unit := 46%N.
Definition quote : code_unit := 34%N.
Definition star : code_unit := 42%N.
Definition minus : code_unit := 45%N.
Definition plus : code_unit := 43%N.

(** The class [\s] of a JavaScript regular expression. *)
Definition is_space (c : code_unit) : bool :=
  between 9 13 c || eqc c 32 || eqc c 160 || eqc c 5760 || between 8192 8202 c
  || eqc c 8232 || eqc c 8233 || eqc c 8239 || eqc c 8287 || eqc c 12288 || eqc c 65279.

(** What [.] does not match (no [s] flag): the four line terminators. *)
Definition is_line_terminator (c : code_unit) : bool :=
  eqc c 10 || eqc c 13 || eqc c 8232 || eqc c 8233.

(** [\d] *)
Definition is_digit (c : code_unit) : bool := between 48 57 c.

(** [[a-zA-Z_]] and [[a-zA-Z0-9_]] *)
Definition is_id_start (c : code_unit) : bool :=
  between 97 122 c || between 65 90 c || eqc c 95.
Definition is_id_part (c : code_unit) : bool :=
  between 97 122 c || between 65 90 c || is_digit c || eqc c 95.

Local Close Scope N_scope.

(** ** Patterns

    A pattern is tried at the current offset only; it answers with the
    length of its match. *)

Definition pattern := text -> option nat.

(** Length of the longest prefix whose code units all satisfy [p]: a
    greedy [p*]. *)
Fixpoint span (p : code_unit -> bool) (t : text) : nat :=
  match t with
  | c :: r => if p c then S (span p r) else 0
  | [] => 0
  end.

Definition at_least_one (n : nat) : option nat :=
  match n with 0 => None | _ => Some n end.

(** A fixed-length sequence of single-character classes. *)
Fixpoint prefix_matches (ps : list (code_unit -> bool)) (t : text) : bool :=
  match ps, t with
  | [], _ => true
  | p :: ps', c :: r => p c && prefix_matches ps' r
  | _ :: _, [] => false
  end.

(** The class of one character. *)
Definition chr (d : code_unit) : code_unit -> bool := fun c => eqc c d.

Definition literal (s : string) : list (code_unit -> bool) := map chr (js s).

Definition fixed (ps : list (code_unit -> bool)) : pattern :=
  fun t => if prefix_matches ps t then Some (length ps) else None.

(** [/\s+/] *)
Definition SP_pattern : pattern := fun t => at_least_one (span is_space t).

(** [[^\\\s:\.]] and the second character of [\\[\s:\.]] *)
Definition is_term_char (c : code_unit) : bool :=
  negb (eqc c backslash || is_space c || eqc c colon || eqc c dot).
Definition is_term_escaped (c : code_unit) : bool :=
  is_space c || eqc c colon || eqc c dot.

(** The loop of [/(?:[^\\\s:\.]|\\[\s:\.])+/]: the two alternatives
    start on different characters, so each round is decided by the next
    one or two code units. *)
Fixpoint term_run (t : text) : nat :=
  match t with
  | [] => 0
  | c :: r =>
      if eqc c backslash then
        match r with
        | d :: r' => if is_term_escaped d then S (S (term_run r')) else 0
        | [] => 0
        end
      else if is_term_char c then S (term_run r) else 0
  end.

Definition Term_pattern : pattern := fun t => at_least_one (term_run t).

(** [/NOT/], [/-/] *)
Definition Not_pattern : pattern := fixed (literal "NOT").
Definition Minus_pattern : pattern := fixed (literal "-").

(** [/[a-zA-Z_]+[a-zA-Z0-9_]*/] *)
Definition ID_pattern : pattern := fun t =>
  match span is_id_start t with
  | 0 => None
  | n => Some (n + span is_id_part (skipn n t))
  end.

(** [/:/], [/:>/], [/:>=/], [/:</], [/:<=/] *)
Definition EQ_pattern : pattern := fixed (literal ":").
Definition GT_pattern : pattern := fixed (literal ":>").
Definition GTE_pattern : pattern := fixed (literal ":>=").
Definition LT_pattern : pattern := fixed (literal ":<").
Definition LTE_pattern : pattern := fixed (literal ":<=").

(** [/\d{4}-\d{2}-\d{2}(?:T\d{2}:\d{2}:\d{2}(?:Z|\+\d{2}:\d{2}))?/] *)
Definition date_part : list (code_unit -> bool) :=
  [is_digit; is_digit; is_digit; is_digit; chr minus;
   is_digit; is_digit; chr minus; is_digit; is_digit].
Definition time_part : list (code_unit -> bool) :=
  [chr 84%N; is_digit; is_digit; chr colon; is_digit; is_digit; chr colon;
   is_digit; is_digit].
Definition zulu : list (code_unit -> bool) := [chr 90%N].
Definition offset_part : list (code_unit -> bool) :=
  [chr plus; is_digit; is_digit; chr colon; is_digit; is_digit].

Definition DateLiteral_pattern : pattern := fun t =>
  if prefix_matches date_part t then
    if prefix_matches (date_part ++ time_part ++ zulu) t
    then Some (length (date_part ++ time_part ++ zulu))
    else if prefix_matches (date_part ++ time_part ++ offset_part) t
    then Some (length (date_part ++ time_part ++ offset_part))
    else Some (length date_part)
  else None.

(** [/\d+(?:\.\d+)?/] *)
Definition NumberLiteral_pattern : pattern := fun t =>
  match span is_digit t with
  | 0 => None
  | n =>
      match skipn n t with
      | c :: r =>
          if eqc c dot then
            match span is_digit r with
            | 0 => Some n
            | m => Some (n + 1 + m)
            end
          else Some n
      | [] => Some n
      end
  end.

(** [/\.\./], [/\*/] *)
Definition DoubleDot_pattern : pattern := fixed (literal "..").
Definition Star_pattern : pattern := fixed [chr star].

(** The part of [/"([^"\\]|\\")*"/] after the opening quote, closing
    quote included.  A quote is consumed either as the closing one or
    right after a backslash, and a backslash only in front of a quote,
    so the match is decided from left to right. *)
Fixpoint quoted_body (t : text) : option nat :=
  match t with
  | [] => None
  | c :: r =>
      if eqc c quote then Some 1
      else if eqc c backslash then
        match r with
        | d :: r' => if eqc d quote then option_map (fun n => S (S n)) (quoted_body r') else None
        | [] => None
        end
      else option_map S (quoted_body r)
  end.

Definition QuotedTerm_pattern : pattern := fun t =>
  match t with
  | c :: r => if eqc c quote then option_map S (quoted_body r) else None
  | [] => None
  end.

(** ** Tokens *)

Inductive TokenType :=
  | SP | Not | Minus | ID | GTE | GT | LTE | LT | EQ | DoubleDot | Star
  | DateLiteral | NumberLiteral | QuotedTerm | Term
  | EOF.

Definition TokenType_eqb (a b : TokenType) : bool :=
  match a, b with
  | SP, SP | Not, Not | Minus, Minus | ID, ID | GTE, GTE | GT, GT
  | LTE, LTE | LT, LT | EQ, EQ | DoubleDot, DoubleDot | Star, Star
  | DateLiteral, DateLiteral | NumberLiteral, NumberLiteral
  | QuotedTerm, QuotedTerm | Term, Term | EOF, EOF => true
  | _, _ => false
  end.

Definition one_of (ts : list TokenType) (t : TokenType) : bool :=
  existsb (TokenType_eqb t) ts.

Definition PATTERN (ty : TokenType) : pattern :=
  match ty with
  | SP => SP_pattern
  | Not => Not_pattern
  | Minus => Minus_pattern
  | ID => ID_pattern
  | GTE => GTE_pattern
  | GT => GT_pattern
  | LTE => LTE_pattern
  | LT => LT_pattern
  | EQ => EQ_pattern
  | DoubleDot => DoubleDot_pattern
  | Star => Star_pattern
  | DateLiteral => DateLiteral_pattern
  | NumberLiteral => NumberLiteral_pattern
  | QuotedTerm => QuotedTerm_pattern
  | Term => Term_pattern
  | EOF => fun _ => None
  end.

Definition longer_alt (ty : TokenType) : option TokenType :=
  match ty with
  | Not | ID | DateLiteral | NumberLiteral => Some Term
  | _ => None
  end.

(** [group: Lexer.SKIPPED] *)
Definition skipped (ty : TokenType) : bool :=
  match ty with SP => true | _ => false end.

(** The token list handed to the lexer and to the parser, in this order. *)
Definition tokens : list TokenType :=
  [SP; Not; Minus; ID; GTE; GT; LTE; LT; EQ; DoubleDot; Star;
   DateLiteral; NumberLiteral; QuotedTerm; Term].

Record IToken := mkToken { tokenType : TokenType; image : text }.

(** ** The lexer

    At an offset the patterns are tried in the order of [tokens]; the
    first that matches is taken, unless its [longer_alt] matches a
    strictly longer text there. *)

Definition with_longer_alt (ty : TokenType) (n : nat) (t : text) : TokenType * nat :=
  match longer_alt ty with
  | Some alt =>
      match PATTERN alt t with
      | Some m => if n <? m then (alt, m) else (ty, n)
      | None => (ty, n)
      end
  | None => (ty, n)
  end.

Fixpoint first_match (tts : list TokenType) (t : text) : option (TokenType * nat) :=
  match tts with
  | [] => None
  | ty :: rest =>
      match PATTERN ty t with
      | Some n => Some (with_longer_alt ty n t)
      | None => first_match rest t
      end
  end.

(** The scanning loop.  Where no pattern matches, the lexer records an
    error and drops code units until one does.  Every pattern matches at
    least one code unit, so [length t] rounds are enough
    ([tokenize_loop_fuel]). *)
Fixpoint tokenize_loop (fuel : nat) (t : text) : list IToken :=
  match fuel with
  | 0 => []
  | S fuel' =>
      match t with
      | [] => []
      | _ :: dropped =>
          match first_match tokens t with
          | Some (ty, n) =>
              let rest := tokenize_loop fuel' (skipn n t) in
              if skipped ty then rest else mkToken ty (firstn n t) :: rest
          | None => tokenize_loop fuel' dropped
          end
      end
  end.

Definition tokenize (t : text) : list IToken := tokenize_loop (length t) t.

Definition show_tokens (ts : list IToken) : list (TokenType * text) :=
  map (fun t => (tokenType t, image t)) ts.

(** ** Concrete syntax trees

    One record per grammar rule, holding the rule's [children] (the
    [ctx] a visitor method receives).  A key that was never filled is
    [None] (or the empty list): the engine hands out partial nodes when
    it recovers from an error, so no child is certain to be there. *)

Record identifierCtx := mkIdentifier { identifier_ID : option IToken }.

Record comparableCtx := mkComparable {
  comparable_NumberLiteral : option IToken;
  comparable_DateLiteral : option IToken }.

Record termCtx := mkTerm {
  term_identifier : option identifierCtx;
  term_DateLiteral : option IToken;
  term_NumberLiteral : option IToken;
  term_Term : option IToken;
  term_QuotedTerm : option IToken }.

Record rangeLeftCtx := mkRangeLeft {
  rangeLeft_comparable : list comparableCtx;
  rangeLeft_DoubleDot : option IToken;
  rangeLeft_Star : option IToken }.

Record rangeRightCtx := mkRangeRight {
  rangeRight_Star : option IToken;
  rangeRight_DoubleDot : option IToken;
  rangeRight_comparable : option comparableCtx }.

Record rangeCtx := mkRange {
  range_rangeLeft : option rangeLeftCtx;
  range_rangeRight : option rangeRightCtx }.

Record fieldStatementCtx := mkFieldStatement {
  fieldStatement_identifier : option identifierCtx;
  fieldStatement_EQ : option IToken;
  fieldStatement_range : option rangeCtx;
  fieldStatement_term : option termCtx }.

Record compareStatementCtx := mkCompareStatement {
  compareStatement_identifier : option identifierCtx;
  compareStatement_GT : option IToken;
  compareStatement_GTE : option IToken;
  compareStatement_LT : option IToken;
  compareStatement_LTE : option IToken;
  compareStatement_comparable : option comparableCtx }.

Inductive statementCtx :=
  mkStatement (negativeStatement : option negativeStatementCtx)
              (fieldStatement : option fieldStatementCtx)
              (compareStatement : option compareStatementCtx)
              (term : option termCtx)
with negativeStatementCtx :=
  mkNegativeStatement (Not Minus : option IToken) (statement : option statementCtx).

Record statementsCtx := mkStatements { statements_statement : list statementCtx }.

Definition no_identifier := mkIdentifier None.
Definition no_comparable := mkComparable None None.
Definition no_term := mkTerm None None None None None.
Definition no_range := mkRange None None.
Definition no_statement := mkStatement None None None None.

(** ** The grammar engine *)

(** A rule invocation either returns its node, or leaves with a
    recognition exception that carries the node built so far; both leave
    the input at some position. *)
Inductive outcome (A : Type) :=
  | Done (node : A) (rest : list IToken)
  | Raised (partial : A) (rest : list IToken).
Arguments Done {A}.
Arguments Raised {A}.

Definition LA (ts : list IToken) : TokenType :=
  match ts with t :: _ => tokenType t | [] => EOF end.

(** [CONSUME] with single-token repair.  On a mismatch the engine first
    tries to make up the expected token, which it may when the token in
    front is one that can follow it ([follows]); then to drop the token
    in front, when the one after it is the expected one. *)
Definition CONSUME (expected : TokenType) (follows : list TokenType)
    (ts : list IToken) : option (IToken * list IToken) :=
  if TokenType_eqb (LA ts) expected then
    match ts with t :: r => Some (t, r) | [] => None end
  else if one_of follows (LA ts) then Some (mkToken expected [], ts)
  else if TokenType_eqb (LA (tl ts)) expected then
    match tl ts with t :: r => Some (t, r) | [] => None end
  else None.

(** The first token from the current one on that some rule on the stack
    can re-synchronise on; the end of the input always is one. *)
Fixpoint reSyncTo (stack_follows : list TokenType) (ts : list IToken) : list IToken :=
  match ts with
  | [] => []
  | t :: r => if one_of stack_follows (tokenType t) then ts else reSyncTo stack_follows r
  end.

(** [SUBRULE]: the invoked rule catches its own recognition exception.
    [follows] is what may come after this call inside the calling rule,
    [outer] what the rules further up can re-synchronise on.  If the
    re-sync token belongs to this call, the input is skipped up to it
    and the partial node returned; otherwise the exception goes on to
    the caller, who keeps the partial node as a child. *)
Definition SUBRULE {A} (follows outer : list TokenType)
    (rule : list TokenType -> list IToken -> outcome A)
    (ts : list IToken) : outcome A :=
  match rule (follows ++ outer) ts with
  | Done node r => Done node r
  | Raised partial r =>
      let r' := reSyncTo (follows ++ outer) r in
      if one_of follows (LA r') then Done partial r' else Raised partial r
  end.

(** What a statement can start with. *)
Definition statement_first : list TokenType :=
  [Not; Minus; ID; DateLiteral; NumberLiteral; Term; QuotedTerm].

Definition comparable_first : list TokenType := [NumberLiteral; DateLiteral].

Definition identifier (next : list TokenType) (outer : list TokenType)
    (ts : list IToken) : outcome identifierCtx :=
  match CONSUME ID next ts with
  | Some (t, r) => Done (mkIdentifier (Some t)) r
  | None => Raised no_identifier ts
  end.

Definition comparable (outer : list TokenType) (ts : list IToken) : outcome comparableCtx :=
  match ts with
  | t :: r =>
      match tokenType t with
      | NumberLiteral => Done (mkComparable (Some t) None) r
      | DateLiteral => Done (mkComparable None (Some t)) r
      | _ => Raised no_comparable ts
      end
  | [] => Raised no_comparable ts
  end.

Definition term (outer : list TokenType) (ts : list IToken) : outcome termCtx :=
  match ts with
  | t :: r =>
      match tokenType t with
      | ID =>
          match SUBRULE [] outer (identifier statement_first) ts with
          | Done i r' => Done (mkTerm (Some i) None None None None) r'
          | Raised i r' => Raised (mkTerm (Some i) None None None None) r'
          end
      | DateLiteral => Done (mkTerm None (Some t) None None None) r
      | NumberLiteral => Done (mkTerm None None (Some t) None None) r
      | Term => Done (mkTerm None None None (Some t) None) r
      | QuotedTerm => Done (mkTerm None None None None (Some t)) r
      | _ => Raised no_term ts
      end
  | [] => Raised no_term ts
  end.

Definition rangeLeft (outer : list TokenType) (ts : list IToken) : outcome rangeLeftCtx :=
  match SUBRULE [DoubleDot] outer comparable ts with
  | Raised c r => Raised (mkRangeLeft [c] None None) r
  | Done c r =>
      match CONSUME DoubleDot (Star :: comparable_first) r with
      | None => Raised (mkRangeLeft [c] None None) r
      | Some (dd, r1) =>
          match r1 with
          | t :: r2 =>
              match tokenType t with
              | Star => Done (mkRangeLeft [c] (Some dd) (Some t)) r2
              | NumberLiteral | DateLiteral =>
                  match SUBRULE [] outer comparable r1 with
                  | Done c2 r3 => Done (mkRangeLeft [c; c2] (Some dd) None) r3
                  | Raised c2 r3 => Raised (mkRangeLeft [c; c2] (Some dd) None) r3
                  end
              | _ => Raised (mkRangeLeft [c] (Some dd) None) r1
              end
          | [] => Raised (mkRangeLeft [c] (Some dd) None) r1
          end
      end
  end.

Definition rangeRight (outer : list TokenType) (ts : list IToken) : outcome rangeRightCtx :=
  match CONSUME Star [DoubleDot] ts with
  | None => Raised (mkRangeRight None None None) ts
  | Some (st, r) =>
      match CONSUME DoubleDot comparable_first r with
      | None => Raised (mkRangeRight (Some st) None None) r
      | Some (dd, r1) =>
          match SUBRULE [] outer comparable r1 with
          | Done c r2 => Done (mkRangeRight (Some st) (Some dd) (Some c)) r2
          | Raised c r2 => Raised (mkRangeRight (Some st) (Some dd) (Some c)) r2
          end
      end
  end.

Definition range (outer : list TokenType) (ts : list IToken) : outcome rangeCtx :=
  match LA ts with
  | NumberLiteral | DateLiteral =>
      match SUBRULE [] outer rangeLeft ts with
      | Done n r => Done (mkRange (Some n) None) r
      | Raised n r => Raised (mkRange (Some n) None) r
      end
  | Star =>
      match SUBRULE [] outer rangeRight ts with
      | Done n r => Done (mkRange None (Some n)) r
      | Raised n r => Raised (mkRange None (Some n)) r
      end
  | _ => Raised no_range ts
  end.

(** The second look-ahead token decides between [range] and [term] when
    the first is a number or a date: the alternatives are told apart by
    the paths [Star], [NumberLiteral DoubleDot], [DateLiteral DoubleDot]
    against the one-token paths of [term]. *)
Definition fieldStatement (outer : list TokenType) (ts : list IToken)
    : outcome fieldStatementCtx :=
  match SUBRULE [EQ] outer (identifier [EQ]) ts with
  | Raised i r => Raised (mkFieldStatement (Some i) None None None) r
  | Done i r =>
      match CONSUME EQ [NumberLiteral; DateLiteral; Star; ID; Term; QuotedTerm] r with
      | None => Raised (mkFieldStatement (Some i) None None None) r
      | Some (eq, r1) =>
          let as_range :=
            match SUBRULE [] outer range r1 with
            | Done n r2 => Done (mkFieldStatement (Some i) (Some eq) (Some n) None) r2
            | Raised n r2 => Raised (mkFieldStatement (Some i) (Some eq) (Some n) None) r2
            end in
          let as_term :=
            match SUBRULE [] outer term r1 with
            | Done n r2 => Done (mkFieldStatement (Some i) (Some eq) None (Some n)) r2
            | Raised n r2 => Raised (mkFieldStatement (Some i) (Some eq) None (Some n)) r2
            end in
          match LA r1 with
          | Star => as_range
          | NumberLiteral | DateLiteral =>
              match LA (tl r1) with
              | DoubleDot => as_range
              | _ => as_term
              end
          | ID | Term | QuotedTerm => as_term
          | _ => Raised (mkFieldStatement (Some i) (Some eq) None None) r1
          end
      end
  end.

Definition compareStatement (outer : list TokenType) (ts : list IToken)
    : outcome compareStatementCtx :=
  match SUBRULE [GT; GTE; LT; LTE] outer (identifier [GT; GTE; LT; LTE]) ts with
  | Raised i r => Raised (mkCompareStatement (Some i) None None None None None) r
  | Done i r =>
      let then_comparable (gt gte lt lte : option IToken) (r1 : list IToken) :=
        match SUBRULE [] outer comparable r1 with
        | Done c r2 => Done (mkCompareStatement (Some i) gt gte lt lte (Some c)) r2
        | Raised c r2 => Raised (mkCompareStatement (Some i) gt gte lt lte (Some c)) r2
        end in
      match r with
      | t :: r1 =>
          match tokenType t with
          | GT => then_comparable (Some t) None None None r1
          | GTE => then_comparable None (Some t) None None r1
          | LT => then_comparable None None (Some t) None r1
          | LTE => then_comparable None None None (Some t) r1
          | _ => Raised (mkCompareStatement (Some i) None None None None None) r
          end
      | [] => Raised (mkCompareStatement (Some i) None None None None None) r
      end
  end.

(** [negativeStatement], given the rule it calls back into. *)
Definition negativeStatement
    (statement : list TokenType -> list IToken -> outcome statementCtx)
    (outer : list TokenType) (ts : list IToken) : outcome negativeStatementCtx :=
  match ts with
  | t :: r =>
      let then_statement (n m : option IToken) :=
        match SUBRULE [] outer statement r with
        | Done s r1 => Done (mkNegativeStatement n m (Some s)) r1
        | Raised s r1 => Raised (mkNegativeStatement n m (Some s)) r1
        end in
      match tokenType t with
      | Not => then_statement (Some t) None
      | Minus => then_statement None (Some t)
      | _ => Raised (mkNegativeStatement None None None) ts
      end
  | [] => Raised (mkNegativeStatement None None None) ts
  end.

(** [statement]: the alternative is picked on up to two tokens of
    look-ahead, [ID EQ] for a field statement, [ID] and a relational
    operator for a comparison, any other start of a term for a term. *)
Fixpoint statement (outer : list TokenType) (ts : list IToken) {struct ts}
    : outcome statementCtx :=
  let wrap {A} (mk : A -> statementCtx) (o : outcome A) :=
    match o with
    | Done n r => Done (mk n) r
    | Raised n r => Raised (mk n) r
    end in
  let as_term :=
    wrap (fun n => mkStatement None None None (Some n)) (SUBRULE [] outer term ts) in
  match ts with
  | [] => Raised no_statement ts
  | t :: r =>
      match tokenType t with
      | Not | Minus =>
          wrap (fun n => mkStatement (Some n) None None None)
               (SUBRULE [] outer (negativeStatement statement) ts)
      | ID =>
          match LA r with
          | EQ =>
              wrap (fun n => mkStatement None (Some n) None None)
                   (SUBRULE [] outer fieldStatement ts)
          | GT | GTE | LT | LTE =>
              wrap (fun n => mkStatement None None (Some n) None)
                   (SUBRULE [] outer compareStatement ts)
          | _ => as_term
          end
      | DateLiteral | NumberLiteral | Term | QuotedTerm => as_term
      | _ => Raised no_statement ts
      end
  end.

(** The repetition of [statements].  A round is entered when the next
    token can start a statement.  When it cannot and the input is not
    at its end, the engine drops tokens until a statement can start or
    the input ends -- unless dropping the one token in front already
    reaches the end, in which case it leaves the token where it is.
    A round that raises ends the repetition; a round that did not move
    ends it too.  Every round that goes on has consumed a token, so the
    fuel [S (length ts)] is never used up ([MANY_statement_fuel]). *)
Fixpoint MANY_statement (fuel : nat) (outer : list TokenType)
    (acc : list statementCtx) (ts : list IToken) : outcome statementsCtx :=
  match fuel with
  | 0 => Done (mkStatements acc) ts
  | S fuel' =>
      if one_of statement_first (LA ts) then
        match SUBRULE statement_first outer statement ts with
        | Done s r =>
            if length r <? length ts
            then MANY_statement fuel' outer (acc ++ [s]) r
            else Done (mkStatements (acc ++ [s])) r
        | Raised s r => Raised (mkStatements (acc ++ [s])) r
        end
      else
        match ts with
        | _ :: (_ :: _) as r => MANY_statement fuel' outer acc r
        | _ => Done (mkStatements acc) ts
        end
  end.

Definition statements (outer : list TokenType) (ts : list IToken)
    : outcome statementsCtx :=
  MANY_statement (S (length ts)) outer [] ts.

Definition node_of {A} (o : outcome A) : A :=
  match o with Done n _ => n | Raised n _ => n end.

(** [parser.input = tokens; parser.statements()]: the first rule on the
    stack re-synchronises on the end of the input, so it always returns
    a node ([parser_statements_returns]). *)
Definition parser_statements (ts : list IToken) : statementsCtx :=
  node_of (SUBRULE [EOF] [] statements ts).

(** ** Values and filters *)

(** A number read from a decimal literal, kept as [coefficient / 10 ^
    scale]; the JavaScript value is the double nearest to it. *)
Inductive JSNumber :=
  | NaN
  | Decimal (coefficient : N) (scale : nat).

Inductive JSValue :=
  | Undefined
  | Str (s : text)
  | Num (n : JSNumber)
  | DateOf (s : text).      (* [new Date(s)] *)

(** The nearest double is zero exactly when the decimal is at most
    [2 ^ -1075], half the smallest positive double. *)
Definition rounds_to_zero (coefficient : N) (scale : nat) : bool :=
  (coefficient * 2 ^ 1075 <=? 10 ^ N.of_nat scale)%N.

(** [ToBoolean] *)
Definition truthy (v : JSValue) : bool :=
  match v with
  | Undefined => false
  | Str s => match s with [] => false | _ => true end
  | Num NaN => false
  | Num (Decimal c k) => negb (rounds_to_zero c k)
  | DateOf _ => true
  end.

Fixpoint digits_value (acc : N) (t : text) : option N :=
  match t with
  | [] => Some acc
  | c :: r => if is_digit c then digits_value (acc * 10 + (c - 48))%N r else None
  end.

(** [Number(image)] on the texts [NumberLiteral] matches, digits with an
    optional fraction; any other text is answered with [NaN] here.
    The lexer only ever hands over the former ([tokenize_images]). *)
Definition Number (image : text) : JSNumber :=
  let n := span is_digit image in
  match n with
  | 0 => NaN
  | S _ =>
      match skipn n image with
      | [] =>
          match digits_value 0 image with Some v => Decimal v 0 | None => NaN end
      | c :: frac =>
          if eqc c dot then
            match frac with
            | [] => NaN
            | _ :: _ =>
                match digits_value 0 (firstn n image ++ frac) with
                | Some v => Decimal v (length frac)
                | None => NaN
                end
            end
          else NaN
      end
  end.

(** [enum FilterType { Term = 1, Field, GT, GTE, LT, LTE, Range }] *)
Module FilterType.

Inductive t := Term | Field | GT | GTE | LT | LTE | Range.

Definition code (x : t) : nat :=
  match x with
  | Term => 1 | Field => 2 | GT => 3 | GTE => 4 | LT => 5 | LTE => 6 | Range => 7
  end.

End FilterType.

(** A filter object.  A property is [None] when the object does not
    have it; a property that is there may still hold [Undefined]. *)
Record Filter := mkFilter {
  type : FilterType.t;
  kind : string;
  field : option JSValue;
  value : option JSValue;
  from : option JSValue;
  to : option JSValue;
  exclude : option bool }.
Arguments mkFilter type kind%_string field value from to exclude.

Inductive JSError := TypeError | SyntaxError.

Inductive completion (A : Type) :=
  | Normal (a : A)
  | Throw (e : JSError).
Arguments Normal {A}.
Arguments Throw {A}.

Definition bind {A B} (c : completion A) (k : A -> completion B) : completion B :=
  match c with
  | Normal a => k a
  | Throw e => Throw e
  end.

Notation "x <- c ;; k" := (bind c (fun x => k))
  (at level 61, c at next level, right associativity).

(** ** The visitor *)

(** [text.replace(/\\(.)/g, '$1')]: from left to right, a backslash and
    the character after it are replaced by that character, unless that
    character is a line terminator, which [.] does not match. *)
Fixpoint escapeTerm (t : text) : text :=
  match t with
  | [] => []
  | c :: r =>
      if eqc c backslash then
        match r with
        | d :: r' =>
            if is_line_terminator d then c :: escapeTerm r else d :: escapeTerm r'
        | [] => [c]
        end
      else c :: escapeTerm r
  end.

Local Open Scope N_scope.

Definition is_json_space (c : code_unit) : bool :=
  eqc c 32 || eqc c 9 || eqc c 10 || eqc c 13.

Definition hex_digit (c : code_unit) : option N :=
  if between 48 57 c then Some (c - 48)
  else if between 97 102 c then Some (c - 87)
  else if between 65 70 c then Some (c - 55)
  else None.

Definition json_escape (c : code_unit) : option code_unit :=
  if eqc c quote then Some quote
  else if eqc c backslash then Some backslash
  else if eqc c 47 then Some 47
  else if eqc c 98 then Some 8
  else if eqc c 102 then Some 12
  else if eqc c 110 then Some 10
  else if eqc c 114 then Some 13
  else if eqc c 116 then Some 9
  else None.

Definition hex4 (a b c d : code_unit) : option code_unit :=
  match hex_digit a, hex_digit b, hex_digit c, hex_digit d with
  | Some x, Some y, Some z, Some w => Some (((x * 16 + y) * 16 + z) * 16 + w)
  | _, _, _, _ => None
  end.

(** The characters of a JSON string after its opening quote: the
    decoded string and what follows the closing quote.  A control
    character (below U+0020) may not stand in a JSON string. *)
Fixpoint json_string_body (t : text) : option (text * text) :=
  let cons (c : code_unit) (o : option (text * text)) :=
    match o with Some (s, rest) => Some (c :: s, rest) | None => None end in
  match t with
  | [] => None
  | c :: r =>
      if eqc c quote then Some ([], r)
      else if eqc c backslash then
        match r with
        | e :: r' =>
            if eqc e 117 then
              match r' with
              | h1 :: h2 :: h3 :: h4 :: r'' =>
                  match hex4 h1 h2 h3 h4 with
                  | Some u => cons u (json_string_body r'')
                  | None => None
                  end
              | _ => None
              end
            else
              match json_escape e with
              | Some d => cons d (json_string_body r')
              | None => None
              end
        | [] => None
        end
      else if c <? 32 then None
      else cons c (json_string_body r)
  end.

Local Close Scope N_scope.

(** [JSON.parse] on a text whose first significant character is a
    quote: the text must be one string literal, white space around it
    allowed.  (Other JSON texts do not start with a quote; they are
    answered with [SyntaxError] here; a QuotedTerm image always starts
    with a quote, [tokenize_images].) *)
Definition JSON_parse (t : text) : completion JSValue :=
  match skipn (span is_json_space t) t with
  | c :: r =>
      if eqc c quote then
        match json_string_body r with
        | Some (s, rest) =>
            match skipn (span is_json_space rest) rest with
            | [] => Normal (Str s)
            | _ :: _ => Throw SyntaxError
            end
        | None => Throw SyntaxError
        end
      else Throw SyntaxError
  | [] => Throw SyntaxError
  end.

(** [this.visit(node)]: [undefined] for a child that is not there. *)
Definition visit {A B} (method : A -> completion B) (undefined : B)
    (node : option A) : completion B :=
  match node with
  | Some n => method n
  | None => Normal undefined
  end.

Definition visit_identifier (ctx : identifierCtx) : completion JSValue :=
  match identifier_ID ctx with
  | Some t => Normal (Str (image t))
  | None => Throw TypeError
  end.

Definition visit_comparable (ctx : comparableCtx) : completion JSValue :=
  match comparable_NumberLiteral ctx, comparable_DateLiteral ctx with
  | Some t, _ => Normal (Num (Number (image t)))
  | None, Some t => Normal (DateOf (image t))
  | None, None => Normal Undefined
  end.

Definition visit_term (ctx : termCtx) : completion JSValue :=
  match term_identifier ctx with
  | Some i => visit_identifier i
  | None =>
  match term_NumberLiteral ctx with
  | Some t => Normal (Str (image t))
  | None =>
  match term_DateLiteral ctx with
  | Some t => Normal (Str (image t))
  | None =>
  match term_Term ctx with
  | Some t => Normal (Str (escapeTerm (image t)))
  | None =>
  match term_QuotedTerm ctx with
  | Some t => JSON_parse (image t)
  | None => Normal Undefined
  end end end end end.

(** The [{from, to}] object of a range. *)
Record Bounds := mkBounds { bounds_from : JSValue; bounds_to : JSValue }.

Definition visit_rangeLeft (ctx : rangeLeftCtx) : completion Bounds :=
  match rangeLeft_comparable ctx with
  | [] => Throw TypeError
  | c0 :: more =>
      f <- visit_comparable c0 ;;
      t <- visit visit_comparable Undefined (hd_error more) ;;
      Normal (mkBounds f t)
  end.

Definition visit_rangeRight (ctx : rangeRightCtx) : completion Bounds :=
  match rangeRight_comparable ctx with
  | None => Throw TypeError
  | Some c0 =>
      t <- visit_comparable c0 ;;
      Normal (mkBounds Undefined t)
  end.

Definition visit_range (ctx : rangeCtx) : completion (option Bounds) :=
  match range_rangeLeft ctx with
  | Some l => b <- visit_rangeLeft l ;; Normal (Some b)
  | None =>
      visit (fun r => b <- visit_rangeRight r ;; Normal (Some b)) None
            (range_rangeRight ctx)
  end.

Definition visit_fieldStatement (ctx : fieldStatementCtx) : completion Filter :=
  name <- visit visit_identifier Undefined (fieldStatement_identifier ctx) ;;
  match fieldStatement_range ctx with
  | Some r =>
      b <- visit_range r ;;
      match b with
      | None => Throw TypeError
      | Some (mkBounds from to) =>
          if negb (truthy from) then
            Normal (mkFilter FilterType.LTE "LTE" (Some name) (Some to) None None None)
          else if negb (truthy to) then
            Normal (mkFilter FilterType.GTE "GTE" (Some name) (Some from) None None None)
          else
            Normal (mkFilter FilterType.Range "Range" (Some name) None
                             (Some from) (Some to) None)
      end
  | None =>
      v <- visit visit_term Undefined (fieldStatement_term ctx) ;;
      Normal (mkFilter FilterType.Field "Field" (Some name) (Some v) None None None)
  end.

Definition visit_compareStatement (ctx : compareStatementCtx) : completion Filter :=
  name <- visit visit_identifier Undefined (compareStatement_identifier ctx) ;;
  v <- visit visit_comparable Undefined (compareStatement_comparable ctx) ;;
  let node := mkFilter FilterType.GT "GT" (Some name) (Some v) None None None in
  let retag (ty : FilterType.t) (k : string) :=
    mkFilter ty k (field node) (value node) (from node) (to node) (exclude node) in
  Normal
    match compareStatement_GT ctx, compareStatement_GTE ctx,
          compareStatement_LT ctx, compareStatement_LTE ctx with
    | Some _, _, _, _ => retag FilterType.GT "GT"%string
    | None, Some _, _, _ => retag FilterType.GTE "GTE"%string
    | None, None, Some _, _ => retag FilterType.LT "LT"%string
    | None, None, None, Some _ => retag FilterType.LTE "LTE"%string
    | None, None, None, None => node
    end.

(** [if (node.exclude) delete node.exclude; else node.exclude = true] *)
Definition toggle_exclude (node : Filter) : Filter :=
  mkFilter (type node) (kind node) (field node) (value node) (from node) (to node)
    match exclude node with
    | Some true => None
    | _ => Some true
    end.

(** [statement] answers with a filter, or with [undefined] ([None]) for
    a node without children; [negativeStatement] then reads a property
    of [undefined]. *)
Fixpoint visit_statement (ctx : statementCtx) : completion (option Filter) :=
  match ctx with
  | mkStatement (Some n) _ _ _ => visit_negativeStatement n
  | mkStatement None (Some f) _ _ => n <- visit_fieldStatement f ;; Normal (Some n)
  | mkStatement None None (Some c) _ => n <- visit_compareStatement c ;; Normal (Some n)
  | mkStatement None None None (Some t) =>
      v <- visit_term t ;;
      Normal (Some (mkFilter FilterType.Term "Term" None (Some v) None None None))
  | mkStatement None None None None => Normal None
  end
with visit_negativeStatement (ctx : negativeStatementCtx) : completion (option Filter) :=
  match ctx with
  | mkNegativeStatement _ _ s =>
      node <- match s with
              | Some s' => visit_statement s'
              | None => Normal None
              end ;;
      match node with
      | None => Throw TypeError
      | Some n => Normal (Some (toggle_exclude n))
      end
  end.

(** [ctx.statement.map((c) => this.visit(c))] *)
Fixpoint visit_each (nodes : list statementCtx) : completion (list (option Filter)) :=
  match nodes with
  | [] => Normal []
  | n :: more =>
      f <- visit_statement n ;;
      fs <- visit_each more ;;
      Normal (f :: fs)
  end.

Definition visit_statements (ctx : statementsCtx) : completion (list (option Filter)) :=
  visit_each (statements_statement ctx).

(** ** [parse] *)

Definition parse (filter : text) : completion (list (option Filter)) :=
  let tokens := tokenize filter in
  let cst := parser_statements tokens in
  visit_statements cst.

(** [parse] after the tokenizer: grammar engine, then visitor. *)
Definition resolve (ts : list IToken) : completion (list (option Filter)) :=
  visit_statements (parser_statements ts).

(** ** Vocabulary of the properties *)

(** The object literals of the visitor, with strings for the names. *)
Definition Term_filter (s : text) : Filter :=
  mkFilter FilterType.Term "Term" None (Some (Str s)) None None None.

Definition Compare_filter (ty : FilterType.t) (k : string) (f : text) (v : JSValue)
    : Filter :=
  mkFilter ty k (Some (Str f)) (Some v) None None None.

Definition Range_filter (f : text) (a b : JSValue) : Filter :=
  mkFilter FilterType.Range "Range" (Some (Str f)) None (Some a) (Some b) None.

(** The value [comparable] gives a number or date token. *)
Definition coerced (t : IToken) : JSValue :=
  match tokenType t with
  | NumberLiteral => Num (Number (image t))
  | _ => DateOf (image t)
  end.

(** The type tag [compareStatement] sets for an operator token. *)
Definition compare_type (op : TokenType) : FilterType.t :=
  match op with
  | GTE => FilterType.GTE
  | LT => FilterType.LT
  | LTE => FilterType.LTE
  | _ => FilterType.GT
  end.

(** The [kind] string that spells a type tag. *)
Definition kind_name (ty : FilterType.t) : string :=
  match ty with
  | FilterType.Term => "Term"
  | FilterType.Field => "Field"
  | FilterType.GT => "GT"
  | FilterType.GTE => "GTE"
  | FilterType.LT => "LT"
  | FilterType.LTE => "LTE"
  | FilterType.Range => "Range"
  end.

(** The property is there and holds something other than [undefined]. *)
Definition defined (p : option JSValue) : Prop :=
  exists v, p = Some v /\ v <> Undefined.

(** The payload that goes with each type tag. *)
Definition payload_matches (c : Filter) : Prop :=
  match type c with
  | FilterType.Term =>
      field c = None /\ value c <> None /\ from c = None /\ to c = None
  | FilterType.Field
  | FilterType.GT | FilterType.GTE | FilterType.LT | FilterType.LTE =>
      field c <> None /\ value c <> None /\ from c = None /\ to c = None
  | FilterType.Range =>
      field c <> None /\ value c = None /\ defined (from c) /\ defined (to c)
  end.

Definition well_tagged (c : Filter) : Prop :=
  kind c = kind_name (type c) /\ payload_matches c /\ kind c <> "EQ"%string.











(** A character of a bare word: no white space and none of backslash,
    colon, dot, quote, star, minus. *)
Definition is_plain (c : code_unit) : bool :=
  negb (is_space c || eqc c backslash || eqc c colon || eqc c dot
        || eqc c quote || eqc c star || eqc c minus).

(** Where a rule invocation left the input. *)
Definition rest_of {A} (o : outcome A) : list IToken :=
  match o with Done _ r => r | Raised _ r => r end.

Definition map_outcome {A B} (g : A -> B) (o : outcome A) : outcome B :=
  match o with
  | Done n r => Done (g n) r
  | Raised n r => Raised (g n) r
  end.

(** The statement node of a negation: the negation token, and the
    statement it applies to. *)
Definition negated (t : IToken) (s : statementCtx) : statementCtx :=
  mkStatement
    (Some match tokenType t with
          | Not => mkNegativeStatement (Some t) None (Some s)
          | _ => mkNegativeStatement None (Some t) (Some s)
          end)
    None None None.

(** Statement nodes put in front of, or changed at the head of, the
    children of [statements]. *)
Definition prepend (a : list statementCtx) (n : statementsCtx) : statementsCtx :=
  mkStatements (a ++ statements_statement n).

Definition on_first (g : statementCtx -> statementCtx) (n : statementsCtx)
    : statementsCtx :=
  match statements_statement n with
  | s :: more => mkStatements (g s :: more)
  | [] => n
  end.

(** The two spellings of a negation in the text: [NOT] with the space
    that separates it from what follows, and the minus sign. *)
Inductive wrapper := NOT_wrapper | minus_wrapper.

Definition wrapper_text (w : wrapper) : text :=
  match w with
  | NOT_wrapper => js "NOT "
  | minus_wrapper => js "-"
  end.

(** [x] behind the wrappers [ws], the first of them outermost. *)
Fixpoint wrapped (ws : list wrapper) (x : text) : text :=
  match ws with
  | [] => x
  | w :: ws' => wrapper_text w ++ wrapped ws' x
  end.

(** The filter with [exclude: true]. *)
Definition with_exclude (c : Filter) : Filter :=
  mkFilter (type c) (kind c) (field c) (value c) (from c) (to c) (Some true).

(** The texts of the date shapes, digit by digit. *)
Definition date_text (y1 y2 y3 y4 m1 m2 d1 d2 : code_unit) : text :=
  [y1; y2; y3; y4; minus; m1; m2; minus; d1; d2].

Definition time_text (h1 h2 m1 m2 s1 s2 : code_unit) : text :=
  [84%N; h1; h2; colon; m1; m2; colon; s1; s2].

Definition offset_text (sign h1 h2 m1 m2 : code_unit) : text :=
  [sign; h1; h2; colon; m1; m2].

(** ** Vocabulary of the further properties *)

Definition has_child (s : statementCtx) : bool :=
  match s with
  | mkStatement None None None None => false
  | _ => true
  end.

Definition image_lengths (ts : list IToken) : nat :=
  list_sum (map (fun t => length (image t)) ts).

(** The token is what the lexer takes at offset [k] of the text: there
    its pattern is the one chosen and matches as many code units as the
    image has, and the image is that part of the text. *)
Definition matched_at (t : text) (k : nat) (tok : IToken) : Prop :=
  k + length (image tok) <= length t
  /\ first_match tokens (skipn k t) = Some (tokenType tok, length (image tok))
  /\ PATTERN (tokenType tok) (skipn k t) = Some (length (image tok))
  /\ image tok = firstn (length (image tok)) (skipn k t).

(** The tokens lie in the text from offset [k] on, in their order and
    without overlap. *)
Fixpoint laid_out (t : text) (k : nat) (toks : list IToken) : Prop :=
  match toks with
  | [] => True
  | tok :: more =>
      exists j, k <= j /\ matched_at t j tok
                /\ laid_out t (j + length (image tok)) more
  end.

(** A character that is neither white space nor a backslash. *)
Definition solid (c : code_unit) : bool := negb (is_space c || eqc c backslash).

(** A character that starts some other token than a term: white space,
    colon, dot, quote, star, minus. *)
Definition is_opener (c : code_unit) : bool :=
  is_space c || eqc c colon || eqc c dot || eqc c quote || eqc c star || eqc c minus.

(** The text ends here, or white space follows. *)
Definition at_boundary (x : text) : bool :=
  match x with [] => true | c :: _ => is_space c end.

(** A text the Term pattern matches from end to end. *)
Definition term_text (e : text) : Prop :=
  e <> [] /\ term_run e = length e /\ is_opener (hd 0%N e) = false /\ e <> js "NOT".

(** The value of a token that stands as a term. *)
Definition term_value (t : IToken) : text :=
  match tokenType t with
  | Term => escapeTerm (image t)
  | _ => image t
  end.

(** Term texts with one space between them. *)
Fixpoint spaced (es : list text) : text :=
  match es with
  | [] => []
  | e :: rest => e ++ match rest with [] => [] | _ :: _ => 32%N :: spaced rest end
  end.

(** A value written as a term: a backslash in front of every white
    space, colon and dot. *)
Definition escape_term (v : text) : text :=
  flat_map (fun c => if is_term_escaped c then [backslash; c] else [c]) v.

(** A character [escape_term] and [escapeTerm] carry back and forth:
    no backslash, no line terminator. *)
Definition escapable (c : code_unit) : bool :=
  negb (eqc c backslash) && negb (is_line_terminator c).

(** A value written between quotes, its own quotes behind a backslash. *)
Definition quote_body (v : text) : text :=
  flat_map (fun c => if eqc c quote then [backslash; quote] else [c]) v.

Definition quote_term (v : text) : text := quote :: quote_body v ++ [quote].

(** A character that can stand in a JSON string as it is, the quote
    apart: no backslash, no control character. *)
Definition json_plain (c : code_unit) : bool :=
  negb (eqc c backslash) && negb (N.ltb c 32).

(** A field name: an identifier that does not begin with [NOT]. *)
Definition identifier_text (f : text) : Prop :=
  f <> [] /\ is_id_start (hd 0%N f) = true /\ forallb is_id_part f = true
  /\ prefix_matches (literal "NOT") f = false.

(** Where a number ends: at the end of the text, at white space, or at
    a dot that no digit follows. *)
Definition number_stop (x : text) : bool :=
  match x with
  | [] => true
  | c :: r =>
      is_space c
      || (eqc c dot && match r with c2 :: _ => negb (is_digit c2) | [] => true end)
  end.

(** A decimal number without fraction: digits, at least one. *)
Definition digits_text (d : text) : Prop := d <> [] /\ forallb is_digit d = true.

Definition Field_filter (f v : text) : Filter :=
  mkFilter FilterType.Field "Field" (Some (Str f)) (Some (Str v)) None None None.

Definition all_zeros (d : text) : bool := forallb (fun c => eqc c 48%N) d.

(** * Properties *)

(** ** Patterns consume between one code unit and what is left *)

Lemma span_le p t : span p t <= length t.
Proof. induction t as [|c r IH]; simpl; [lia|]. destruct (p c); simpl; lia. Qed.

Lemma span_all p t : forallb p t = true -> span p t = length t.
Proof.
  induction t as [|c r IH]; simpl; [reflexivity|].
  intros H. apply andb_prop in H as [Hc Hr]. rewrite Hc, IH; trivial.
Qed.

Lemma prefix_matches_length ps t :
  prefix_matches ps t = true -> length ps <= length t.
Proof.
  revert t. induction ps as [|p ps IH]; intros [|c r]; simpl; try lia; try discriminate.
  intros H. apply andb_prop in H as [_ H]. apply IH in H. lia.
Qed.

Lemma fixed_bounds ps t n :
  ps <> [] -> fixed ps t = Some n -> 1 <= n <= length t.
Proof.
  unfold fixed. intros Hne.
  destruct (prefix_matches ps t) eqn:E; [|discriminate].
  intros [= <-]. apply prefix_matches_length in E.
  destruct ps; [congruence|simpl in *; lia].
Qed.

Lemma at_least_one_bounds k n : at_least_one k = Some n -> n = k /\ 1 <= k.
Proof. destruct k; simpl; [discriminate|]. intros [= <-]. lia. Qed.

Lemma term_run_le t : term_run t <= length t.
Proof.
  enough (H : forall n t, length t <= n -> term_run t <= length t)
    by (apply (H (length t)); lia).
  clear t. induction n as [|n IH]; intros [|c r] Hn; simpl in *; try lia.
  destruct (eqc c backslash).
  - destruct r as [|d r']; [lia|]. destruct (is_term_escaped d); [|lia].
    simpl in *. specialize (IH r'). lia.
  - destruct (is_term_char c); [|lia]. specialize (IH r). lia.
Qed.

Lemma quoted_body_bounds t n : quoted_body t = Some n -> 1 <= n <= length t.
Proof.
  enough (H : forall k t n, length t <= k -> quoted_body t = Some n -> 1 <= n <= length t)
    by (apply (H (length t)); lia).
  clear t n. induction k as [|k IH]; intros [|c r] n Hk; simpl in *; try discriminate; try lia.
  destruct (eqc c quote); [intros [= <-]; lia|].
  destruct (eqc c backslash).
  - destruct r as [|d r']; [discriminate|]. destruct (eqc d quote); [|discriminate].
    destruct (quoted_body r') as [m|] eqn:E; simpl; [|discriminate].
    intros [= <-]. apply IH in E; simpl in *; lia.
  - destruct (quoted_body r) as [m|] eqn:E; simpl; [|discriminate].
    intros [= <-]. apply IH in E; lia.
Qed.

Lemma span_skipn_le p k t : k <= length t -> k + span p (skipn k t) <= length t.
Proof.
  intros Hk. pose proof (span_le p (skipn k t)) as H.
  rewrite length_skipn in H. lia.
Qed.

Lemma ID_pattern_bounds t n : ID_pattern t = Some n -> 1 <= n <= length t.
Proof.
  unfold ID_pattern. pose proof (span_le is_id_start t) as Hs.
  destruct (span is_id_start t) as [|k] eqn:E; [discriminate|].
  intros [= <-]. pose proof (span_skipn_le is_id_part (S k) t Hs) as H.
  simpl in H. lia.
Qed.

Lemma NumberLiteral_pattern_bounds t n :
  NumberLiteral_pattern t = Some n -> 1 <= n <= length t.
Proof.
  unfold NumberLiteral_pattern. pose proof (span_le is_digit t) as Hs.
  destruct (span is_digit t) as [|k] eqn:E; [discriminate|].
  destruct (skipn (S k) t) as [|c r] eqn:Er; [intros [= <-]; lia|].
  pose proof (length_skipn (S k) t) as Hl. rewrite Er in Hl.
  change (length (c :: r)) with (S (length r)) in Hl.
  destruct (eqc c dot); [|intros [= <-]; lia].
  pose proof (span_le is_digit r) as Hr.
  destruct (span is_digit r); intros [= <-]; lia.
Qed.

Lemma DateLiteral_pattern_bounds t n :
  DateLiteral_pattern t = Some n -> 1 <= n <= length t.
Proof.
  unfold DateLiteral_pattern.
  destruct (prefix_matches date_part t) eqn:E0; [|discriminate].
  destruct (prefix_matches (date_part ++ time_part ++ zulu) t) eqn:E1.
  { intros [= <-]. apply prefix_matches_length in E1. simpl in *. lia. }
  destruct (prefix_matches (date_part ++ time_part ++ offset_part) t) eqn:E2.
  { intros [= <-]. apply prefix_matches_length in E2. simpl in *. lia. }
  intros [= <-]. apply prefix_matches_length in E0. simpl in *. lia.
Qed.

Lemma PATTERN_bounds ty t n : PATTERN ty t = Some n -> 1 <= n <= length t.
Proof.
  destruct ty; simpl;
    try (apply fixed_bounds; discriminate);
    try apply ID_pattern_bounds;
    try apply NumberLiteral_pattern_bounds;
    try apply DateLiteral_pattern_bounds;
    try discriminate.
  - unfold SP_pattern. intros H. apply at_least_one_bounds in H as [-> H].
    pose proof (span_le is_space t). lia.
  - unfold QuotedTerm_pattern. destruct t as [|c r]; [discriminate|].
    destruct (eqc c quote); [|discriminate].
    destruct (quoted_body r) eqn:E; simpl; [|discriminate].
    intros [= <-]. apply quoted_body_bounds in E. simpl. lia.
  - unfold Term_pattern. intros H. apply at_least_one_bounds in H as [-> H].
    pose proof (term_run_le t). lia.
Qed.

Lemma with_longer_alt_bounds ty n t ty' n' :
  1 <= n <= length t -> with_longer_alt ty n t = (ty', n') -> 1 <= n' <= length t.
Proof.
  unfold with_longer_alt. intros Hn.
  destruct (longer_alt ty) as [alt|]; [|intros [= <- <-]; exact Hn].
  destruct (PATTERN alt t) as [m|] eqn:E; [|intros [= <- <-]; exact Hn].
  destruct (n <? m); intros [= <- <-]; [eapply PATTERN_bounds; eauto|exact Hn].
Qed.

Lemma first_match_bounds tys t ty n :
  first_match tys t = Some (ty, n) -> 1 <= n <= length t.
Proof.
  induction tys as [|ty0 tys IH]; simpl; [discriminate|].
  destruct (PATTERN ty0 t) as [k|] eqn:E; [|exact IH].
  intros [= H]. eapply with_longer_alt_bounds; [|exact H].
  eapply PATTERN_bounds; eauto.
Qed.

Lemma first_match_cons_None ty tys t :
  PATTERN ty t = None -> first_match (ty :: tys) t = first_match tys t.
Proof. intros E. cbn [first_match]. rewrite E. reflexivity. Qed.

(** The scanning loop never runs out of rounds: any two fuels that cover
    the text give the same tokens. *)
Lemma tokenize_loop_step f c r :
  tokenize_loop (S f) (c :: r) =
  match first_match tokens (c :: r) with
  | Some (ty, n) =>
      let rest := tokenize_loop f (skipn n (c :: r)) in
      if skipped ty then rest else mkToken ty (firstn n (c :: r)) :: rest
  | None => tokenize_loop f r
  end.
Proof. reflexivity. Qed.

Lemma tokenize_loop_fuel f1 f2 t :
  length t <= f1 -> length t <= f2 -> tokenize_loop f1 t = tokenize_loop f2 t.
Proof.
  revert f2 t. induction f1 as [|f1 IH]; intros f2 t H1 H2.
  - destruct t; [|cbn [length] in H1; lia]. destruct f2; reflexivity.
  - destruct f2 as [|f2]; [destruct t; [reflexivity|cbn [length] in H2; lia]|].
    destruct t as [|c r]; [reflexivity|]. rewrite !tokenize_loop_step.
    cbn [length] in H1, H2.
    destruct (first_match tokens (c :: r)) as [[ty n]|] eqn:E.
    + apply first_match_bounds in E. cbn [length] in E.
      assert (Hl : length (skipn n (c :: r)) <= length r)
        by (rewrite length_skipn; cbn [length]; lia).
      cbv zeta. rewrite (IH f2 (skipn n (c :: r))); [reflexivity| |]; lia.
    + apply IH; lia.
Qed.

Lemma tokenize_fuel f t : length t <= f -> tokenize_loop f t = tokenize t.
Proof. intros H. apply tokenize_loop_fuel; [exact H|lia]. Qed.

(** A first token that spans the prefix [p] of the text splits the
    scan: the token, then the tokens of what follows. *)
Lemma tokenize_first p x ty :
  p <> [] ->
  first_match tokens (p ++ x) = Some (ty, length p) ->
  tokenize (p ++ x) = (if skipped ty then [] else [mkToken ty p]) ++ tokenize x.
Proof.
  intros Hp E. unfold tokenize at 1.
  destruct p as [|c p']; [congruence|].
  change (length ((c :: p') ++ x)) with (S (length (p' ++ x))).
  change ((c :: p') ++ x) with (c :: (p' ++ x)) in *.
  rewrite tokenize_loop_step, E. cbv zeta.
  change (c :: (p' ++ x)) with ((c :: p') ++ x).
  rewrite skipn_app, firstn_app, Nat.sub_diag, skipn_all, firstn_all.
  cbn [skipn firstn]. rewrite app_nil_r. cbn [app].
  rewrite tokenize_fuel by (rewrite length_app; lia).
  destruct (skipped ty); reflexivity.
Qed.

Lemma first_match_space t :
  t <> [] -> forallb is_space t = true -> first_match tokens t = Some (SP, length t).
Proof.
  intros Hne Hall. unfold tokens. cbn [first_match PATTERN]. unfold SP_pattern.
  rewrite (span_all _ _ Hall). destruct t; [congruence|reflexivity].
Qed.

Lemma tokenize_space t : forallb is_space t = true -> tokenize t = [].
Proof.
  intros Hall. destruct t as [|c r]; [reflexivity|].
  rewrite <- (app_nil_r (c :: r)).
  rewrite (tokenize_first (c :: r) [] SP); [reflexivity|discriminate|].
  rewrite app_nil_r. apply first_match_space; [discriminate|exact Hall].
Qed.

(** ** Properties settled by running the program *)

(** C9. A text of white space only, the empty text included, parses to
    the empty sequence of filters. *)
Theorem C9_blank_input_gives_no_filters (input : text) :
  forallb is_space input = true -> parse input = Normal [].
Proof.
  intros Hall. unfold parse. rewrite (tokenize_space _ Hall). reflexivity.
Qed.

Lemma C9_blank_input_witness :
  forallb is_space (js "  ") = true /\ parse (js "  ") = Normal [].
Proof.
  split; [reflexivity|]. apply (C9_blank_input_gives_no_filters (js "  ")). reflexivity.
Defined.

(** C1 (defect). With the left bound [0] the range [x:0..5] does not
    become a Range filter: [0] is falsy, so the test for an absent left
    bound takes it and the statement collapses to [LTE 5]; likewise
    [x:0..*] gives [LTE] with no value, and [x:5..0] gives [GTE 5]. *)
Theorem C1_zero_bound_is_taken_for_absent :
  parse (js "x:0..5")
    = Normal [Some (Compare_filter FilterType.LTE "LTE" (js "x") (Num (Decimal 5 0)))]
  /\ parse (js "x:0..*")
    = Normal [Some (Compare_filter FilterType.LTE "LTE" (js "x") Undefined)]
  /\ parse (js "x:5..0")
    = Normal [Some (Compare_filter FilterType.GTE "GTE" (js "x") (Num (Decimal 5 0)))]
  /\ parse (js "x:1..5")
    = Normal [Some (Range_filter (js "x") (Num (Decimal 1 0)) (Num (Decimal 5 0)))].
Proof. repeat split; vm_compute; reflexivity. Qed.

(** C2 (defect). A quoted term with a tab between its quotes is one
    QuotedTerm token, and [JSON.parse] rejects it: [parse] leaves with a
    SyntaxError.  A lone [NOT] and an unfinished [x:*] leave with a
    TypeError, raised by the visitor on the partial tree. *)
Theorem C2_parse_can_throw :
  show_tokens (tokenize [quote; 9%N; quote]) = [(QuotedTerm, [quote; 9%N; quote])]
  /\ parse [quote; 9%N; quote] = Throw SyntaxError
  /\ parse (js "NOT") = Throw TypeError
  /\ parse (js "x:*") = Throw TypeError.
Proof. repeat split; vm_compute; reflexivity. Qed.

(** C4 (defect). The date pattern knows the offset [+HH:MM] but not
    [-HH:MM]: with a negative offset the text is not one DateLiteral
    token, it falls apart at its colons.  With [Z], with a positive
    offset, and without a time it is one DateLiteral token. *)
Theorem C4_negative_offset_is_not_a_date :
  show_tokens (tokenize (js "2020-01-01T10:00:00-05:00"))
    = [(Term, js "2020-01-01T10"); (EQ, js ":"); (NumberLiteral, js "00");
       (EQ, js ":"); (Term, js "00-05"); (EQ, js ":"); (NumberLiteral, js "00")]
  /\ show_tokens (tokenize (js "2020-01-01T10:00:00+05:00"))
    = [(DateLiteral, js "2020-01-01T10:00:00+05:00")]
  /\ show_tokens (tokenize (js "2020-01-01T10:00:00Z"))
    = [(DateLiteral, js "2020-01-01T10:00:00Z")]
  /\ show_tokens (tokenize (js "2020-01-01")) = [(DateLiteral, js "2020-01-01")].
Proof. repeat split; vm_compute; reflexivity. Qed.

(** C7 (defect). [a\:b] parses to the one term [a:b].  But a backslash
    in front of a line feed, which the Term pattern accepts as an
    escape like any white space, is left in place by [escapeTerm]. *)
Theorem C7_escaped_line_feed_keeps_its_backslash :
  parse (js "a\:b") = Normal [Some (Term_filter (js "a:b"))]
  /\ show_tokens (tokenize (js "a" ++ [backslash; 10%N] ++ js "b"))
    = [(Term, js "a" ++ [backslash; 10%N] ++ js "b")]
  /\ parse (js "a" ++ [backslash; 10%N] ++ js "b")
    = Normal [Some (Term_filter (js "a" ++ [backslash; 10%N] ++ js "b"))]
  /\ parse (js "a\ b") = Normal [Some (Term_filter (js "a b"))].
Proof. repeat split; vm_compute; reflexivity. Qed.

(** *** Dates, for all digits *)

Lemma digit_cases c :
  is_digit c = true ->
  (c = 48 \/ c = 49 \/ c = 50 \/ c = 51 \/ c = 52 \/ c = 53 \/ c = 54
   \/ c = 55 \/ c = 56 \/ c = 57)%N.
Proof.
  unfold is_digit, between. intros H. apply andb_prop in H as [H1 H2].
  apply N.leb_le in H1, H2. lia.
Qed.

Ltac each_digit c H :=
  destruct (digit_cases c H) as [->|[->|[->|[->|[->|[->|[->|[->|[->| ->]]]]]]]]].

Lemma digit_head_no_match ty c r :
  is_digit c = true ->
  one_of [SP; Not; Minus; ID; GTE; GT; LTE; LT; EQ; DoubleDot; Star] ty = true ->
  PATTERN ty (c :: r) = None.
Proof.
  intros H Hty. each_digit c H; destruct ty; try discriminate Hty; reflexivity.
Qed.

Lemma digit_term_char c : is_digit c = true -> is_term_char c = true.
Proof. intros H. each_digit c H; reflexivity. Qed.

Lemma term_run_char c r : is_term_char c = true -> term_run (c :: r) = S (term_run r).
Proof.
  intros H. cbn [term_run]. rewrite H. unfold is_term_char in H.
  apply negb_true_iff in H. apply orb_false_iff in H as [H _].
  apply orb_false_iff in H as [H _]. apply orb_false_iff in H as [H _].
  rewrite H. reflexivity.
Qed.

Lemma first_match_digit c r :
  is_digit c = true ->
  first_match tokens (c :: r)
  = first_match [DateLiteral; NumberLiteral; QuotedTerm; Term] (c :: r).
Proof.
  intros H. unfold tokens.
  do 11 (rewrite first_match_cons_None
           by (apply digit_head_no_match; [exact H|reflexivity])).
  reflexivity.
Qed.

Ltac digits_of H :=
  cbn [forallb] in H;
  repeat (let Hd := fresh "Hdigit" in apply andb_prop in H as [Hd H]);
  clear H.

Ltac use_digits :=
  repeat match goal with
         | H : is_digit ?c = true |- context [is_digit ?c] => rewrite H
         end.

Ltac run_term :=
  repeat (rewrite term_run_char by
            first [reflexivity | apply digit_term_char; assumption]).

(** X21. A text of a date shape is one token: the date alone, the date with
    a time and [Z], the date with a time and a [+] offset. *)
Lemma date_shapes_are_one_token y1 y2 y3 y4 m1 m2 d1 d2 h1 h2 i1 i2 s1 s2 o1 o2 o3 o4 :
  forallb is_digit [y1; y2; y3; y4; m1; m2; d1; d2; h1; h2; i1; i2; s1; s2;
                    o1; o2; o3; o4] = true ->
  let date := date_text y1 y2 y3 y4 m1 m2 d1 d2 in
  let time := time_text h1 h2 i1 i2 s1 s2 in
  tokenize date = [mkToken DateLiteral date]
  /\ tokenize (date ++ time ++ [90%N]) = [mkToken DateLiteral (date ++ time ++ [90%N])]
  /\ tokenize (date ++ time ++ offset_text plus o1 o2 o3 o4)
     = [mkToken DateLiteral (date ++ time ++ offset_text plus o1 o2 o3 o4)].
Proof.
  intros H date time. digits_of H.
  assert (Hone : forall t : text,
             t <> [] -> first_match tokens t = Some (DateLiteral, length t) ->
             tokenize t = [mkToken DateLiteral t]).
  { intros t Hne E. rewrite <- (app_nil_r t) at 1.
    rewrite (tokenize_first t [] DateLiteral Hne) by (rewrite app_nil_r; exact E).
    reflexivity. }
  repeat split; (apply Hone; [discriminate|]);
    unfold date, time, date_text, time_text, offset_text; cbn [app];
    rewrite first_match_digit by assumption;
    cbn [first_match PATTERN]; unfold DateLiteral_pattern;
    cbn [date_part time_part zulu offset_part app prefix_matches];
    use_digits; unfold with_longer_alt; cbn [longer_alt PATTERN];
    unfold Term_pattern; run_term; reflexivity.
Qed.

(** With a [-] offset the same text is not one token: the first token
    is a Term that ends in front of the first colon. *)
Lemma negative_offset_splits y1 y2 y3 y4 m1 m2 d1 d2 h1 h2 i1 i2 s1 s2 o1 o2 o3 o4 :
  forallb is_digit [y1; y2; y3; y4; m1; m2; d1; d2; h1; h2; i1; i2; s1; s2;
                    o1; o2; o3; o4] = true ->
  let date := date_text y1 y2 y3 y4 m1 m2 d1 d2 in
  let rest := [colon; i1; i2; colon; s1; s2] ++ offset_text minus o1 o2 o3 o4 in
  tokenize (date ++ time_text h1 h2 i1 i2 s1 s2 ++ offset_text minus o1 o2 o3 o4)
  = mkToken Term (date ++ [84%N; h1; h2]) :: tokenize rest.
Proof.
  intros H date rest. digits_of H.
  change (date ++ time_text h1 h2 i1 i2 s1 s2 ++ offset_text minus o1 o2 o3 o4)
    with ((date ++ [84%N; h1; h2]) ++ rest).
  rewrite (tokenize_first (date ++ [84%N; h1; h2]) rest Term); [reflexivity|discriminate|].
  unfold rest, date, date_text, offset_text; cbn [app].
  rewrite first_match_digit by assumption.
  cbn [first_match PATTERN]. unfold DateLiteral_pattern.
  cbn [date_part time_part zulu offset_part app prefix_matches].
  use_digits. unfold with_longer_alt. cbn [longer_alt PATTERN].
  unfold Term_pattern. run_term. reflexivity.
Qed.

(** What [escapeTerm] does at the first backslash of a text: it strips
    it, except in front of a line terminator. *)
Lemma escapeTerm_first_backslash a c b :
  forallb (fun d => negb (eqc d backslash)) a = true ->
  escapeTerm (a ++ backslash :: c :: b)
  = if is_line_terminator c
    then a ++ backslash :: escapeTerm (c :: b)
    else a ++ c :: escapeTerm b.
Proof.
  induction a as [|d a IH]; cbn [forallb app escapeTerm].
  - intros _. change (eqc backslash backslash) with true. cbv iota.
    destruct (is_line_terminator c); reflexivity.
  - intros H. apply andb_prop in H as [Hd Ha]. apply negb_true_iff in Hd.
    rewrite Hd, (IH Ha). destruct (is_line_terminator c); reflexivity.
Qed.

(** How a range statement resolves on its tokens: the two tests of
    [fieldStatement] are tests for falsy bounds. *)
Lemma range_statement_resolves (f eq a dd b : IToken) :
  tokenType f = ID -> tokenType eq = EQ -> tokenType dd = DoubleDot ->
  one_of [NumberLiteral; DateLiteral] (tokenType a) = true ->
  one_of [NumberLiteral; DateLiteral] (tokenType b) = true ->
  resolve [f; eq; a; dd; b]
  = Normal [Some (if negb (truthy (coerced a))
                  then Compare_filter FilterType.LTE "LTE" (image f) (coerced b)
                  else if negb (truthy (coerced b))
                  then Compare_filter FilterType.GTE "GTE" (image f) (coerced a)
                  else Range_filter (image f) (coerced a) (coerced b))].
Proof.
  destruct f as [fty fimg], eq as [ety eimg], a as [aty aimg],
           dd as [dty dimg], b as [bty bimg].
  cbn [tokenType image]. intros -> -> -> Ha Hb.
  destruct aty; try discriminate Ha; destruct bty; try discriminate Hb;
    unfold coerced, resolve, parser_statements, visit_statements;
    cbn -[truthy Number];
    match goal with
    | |- context [truthy ?x] => destruct (truthy x)
    end; cbn -[truthy Number];
    try match goal with
    | |- context [truthy ?x] => destruct (truthy x)
    end; reflexivity.
Qed.

(** ** Literals as terms and as comparables *)

(** C6. A number or date token standing alone, or after the equals
    sign, resolves to its source text; after a relational operator and
    in every position of a range it resolves to the number or the date
    it denotes.  For the range this is stated twice: on the bounds the
    [range] node resolves to (two bounds, which may differ and may be
    falsy, and the open ranges [*..t] and [t..*]), and on the filter
    [fieldStatement] then builds from them.  So [123] is the term with
    the string [123], and [x:>123] compares with the number 123. *)
Theorem C6_literals_are_typed_only_as_comparables (f op eq dd st t b : IToken)
    (outer : list TokenType) :
  tokenType f = ID ->
  one_of [GT; GTE; LT; LTE] (tokenType op) = true ->
  tokenType eq = EQ ->
  tokenType dd = DoubleDot ->
  tokenType st = Star ->
  one_of [NumberLiteral; DateLiteral] (tokenType t) = true ->
  one_of [NumberLiteral; DateLiteral] (tokenType b) = true ->
  resolve [t] = Normal [Some (Term_filter (image t))]
  /\ resolve [f; eq; t]
     = Normal [Some (mkFilter FilterType.Field "Field" (Some (Str (image f)))
                              (Some (Str (image t))) None None None)]
  /\ resolve [f; op; t]
     = Normal [Some (Compare_filter (compare_type (tokenType op))
                       (kind_name (compare_type (tokenType op)))
                       (image f) (coerced t))]
  /\ visit_range (node_of (range outer [t; dd; b]))
     = Normal (Some (mkBounds (coerced t) (coerced b)))
  /\ visit_range (node_of (range outer [st; dd; t]))
     = Normal (Some (mkBounds Undefined (coerced t)))
  /\ visit_range (node_of (range outer [t; dd; st]))
     = Normal (Some (mkBounds (coerced t) Undefined))
  /\ resolve [f; eq; t; dd; b]
     = Normal [Some (if negb (truthy (coerced t))
                     then Compare_filter FilterType.LTE "LTE" (image f) (coerced b)
                     else if negb (truthy (coerced b))
                     then Compare_filter FilterType.GTE "GTE" (image f) (coerced t)
                     else Range_filter (image f) (coerced t) (coerced b))]
  /\ resolve [f; eq; st; dd; t]
     = Normal [Some (Compare_filter FilterType.LTE "LTE" (image f) (coerced t))]
  /\ resolve [f; eq; t; dd; st]
     = Normal [Some (if truthy (coerced t)
                     then Compare_filter FilterType.GTE "GTE" (image f) (coerced t)
                     else Compare_filter FilterType.LTE "LTE" (image f) Undefined)]
  /\ parse (js "123") = Normal [Some (Term_filter (js "123"))]
  /\ parse (js "x:>123")
     = Normal [Some (Compare_filter FilterType.GT "GT" (js "x") (Num (Decimal 123 0)))].
Proof.
  destruct f as [fty fimg], op as [oty oimg], eq as [ety eimg],
           dd as [dty dimg], st as [sty simg], t as [tty timg], b as [bty bimg].
  cbn [tokenType image]. intros -> Hop -> -> -> Ht Hb.
  assert (Hex : parse (js "123") = Normal [Some (Term_filter (js "123"))]
          /\ parse (js "x:>123")
             = Normal [Some (Compare_filter FilterType.GT "GT" (js "x")
                                            (Num (Decimal 123 0)))])
    by (split; vm_compute; reflexivity).
  split; [destruct tty; try discriminate Ht; reflexivity|].
  split; [destruct tty; try discriminate Ht; reflexivity|].
  split; [destruct tty; try discriminate Ht; destruct oty; try discriminate Hop;
          reflexivity|].
  split; [destruct tty; try discriminate Ht; destruct bty; try discriminate Hb;
          reflexivity|].
  split; [destruct tty; try discriminate Ht; reflexivity|].
  split; [destruct tty; try discriminate Ht; reflexivity|].
  split; [|split; [|split; [|exact Hex]]].
  - destruct tty; try discriminate Ht; destruct bty; try discriminate Hb;
      unfold coerced, resolve, parser_statements, visit_statements;
      cbn -[truthy Number];
      change (truthy Undefined) with false;
      change (truthy (DateOf timg)) with true;
      change (truthy (DateOf bimg)) with true;
      cbn -[truthy Number];
      repeat match goal with
      | |- context [truthy ?x] => destruct (truthy x); cbn -[truthy Number]
      end; reflexivity.
  - destruct tty; try discriminate Ht;
      unfold coerced, resolve, parser_statements, visit_statements;
      cbn -[truthy Number]; reflexivity.
  - destruct tty; try discriminate Ht;
      unfold coerced, resolve, parser_statements, visit_statements;
      cbn -[truthy Number];
      change (truthy Undefined) with false;
      change (truthy (DateOf timg)) with true;
      change (truthy (DateOf bimg)) with true;
      cbn -[truthy Number];
      repeat match goal with
      | |- context [truthy ?x] => destruct (truthy x); cbn -[truthy Number]
      end; reflexivity.
Qed.

Lemma C6_literals_witness :
  let f := mkToken ID (js "x") in
  let op := mkToken GTE (js ":>=") in
  let eq := mkToken EQ (js ":") in
  let dd := mkToken DoubleDot (js "..") in
  let st := mkToken Star (js "*") in
  let t := mkToken NumberLiteral (js "0") in
  let b := mkToken DateLiteral (js "2020-01-01") in
  resolve [t] = Normal [Some (Term_filter (js "0"))]
  /\ resolve [f; op; t]
     = Normal [Some (Compare_filter FilterType.GTE "GTE" (js "x") (Num (Decimal 0 0)))]
  /\ visit_range (node_of (range [EOF] [t; dd; b]))
     = Normal (Some (mkBounds (Num (Decimal 0 0)) (DateOf (js "2020-01-01"))))
  /\ resolve [f; eq; st; dd; b]
     = Normal [Some (Compare_filter FilterType.LTE "LTE" (js "x")
                                    (DateOf (js "2020-01-01")))].
Proof.
  intros f op eq dd st t b.
  destruct (C6_literals_are_typed_only_as_comparables f op eq dd st t b [EOF])
    as (H1 & _ & H3 & H4 & _); try reflexivity.
  destruct (C6_literals_are_typed_only_as_comparables f op eq dd st b t [EOF])
    as (_ & _ & _ & _ & _ & _ & _ & H8 & _); try reflexivity.
  split; [exact H1|split; [exact H3|split; [exact H4|exact H8]]].
Defined.

(** ** What every filter the visitor builds looks like *)

Lemma bind_Normal {A B} (c : completion A) (k : A -> completion B) (b : B) :
  bind c k = Normal b -> exists a, c = Normal a /\ k a = Normal b.
Proof. destruct c as [a|e]; simpl; [eauto|discriminate]. Qed.

(** A property that holds of the filters the three plain statements
    build, and that the negation toggle keeps, holds of every filter a
    statement resolves to. *)
Lemma visit_statement_filters (P : Filter -> Prop) :
  (forall ctx c, visit_fieldStatement ctx = Normal c -> P c) ->
  (forall ctx c, visit_compareStatement ctx = Normal c -> P c) ->
  (forall v, P (mkFilter FilterType.Term "Term" None (Some v) None None None)) ->
  (forall c, P c -> P (toggle_exclude c)) ->
  forall ctx c, visit_statement ctx = Normal (Some c) -> P c.
Proof.
  intros Hfield Hcompare Hterm Htoggle.
  fix IH 1. intros ctx c.
  destruct ctx as [[[n m [s|]]|] [f|] [cmp|] [t|]]; cbn [visit_statement visit_negativeStatement];
    intros H;
    try (apply bind_Normal in H as ([node|] & Hs & H); [|discriminate];
         injection H as <-; apply Htoggle; exact (IH s node Hs));
    try discriminate H;
    try (apply bind_Normal in H as (node & Hs & [= <-]); eauto; fail).
Qed.

Lemma visit_each_In nodes cs c :
  visit_each nodes = Normal cs -> In (Some c) cs ->
  exists n, In n nodes /\ visit_statement n = Normal (Some c).
Proof.
  revert cs. induction nodes as [|n more IH]; intros cs; cbn [visit_each].
  - intros [= <-] [].
  - intros H. apply bind_Normal in H as (f & Hf & H).
    apply bind_Normal in H as (fs & Hfs & [= <-]).
    intros [->|Hin].
    + exists n. split; [left; reflexivity|exact Hf].
    + destruct (IH fs Hfs Hin) as (n' & Hn' & Hv). exists n'. split; [right|]; assumption.
Qed.

(** Every filter in the answer of [parse] comes from a statement node. *)
Lemma parse_filters (P : Filter -> Prop) :
  (forall ctx c, visit_statement ctx = Normal (Some c) -> P c) ->
  forall input cs c, parse input = Normal cs -> In (Some c) cs -> P c.
Proof.
  intros HP input cs c Hparse Hin. unfold parse, visit_statements in Hparse.
  destruct (visit_each_In _ _ _ Hparse Hin) as (n & _ & Hn). eauto.
Qed.

Lemma truthy_defined v : truthy v = true -> defined (Some v).
Proof. intros H. exists v. split; [reflexivity|]. intros ->. discriminate H. Qed.

Lemma visit_fieldStatement_well_tagged ctx c :
  visit_fieldStatement ctx = Normal c -> well_tagged c /\ exclude c = None.
Proof.
  unfold visit_fieldStatement. intros H.
  apply bind_Normal in H as (name & _ & H).
  destruct (fieldStatement_range ctx) as [r|].
  - apply bind_Normal in H as ([[a b]|] & _ & H); [|discriminate].
    destruct (truthy a) eqn:Ea; cbn [negb] in H;
      [destruct (truthy b) eqn:Eb; cbn [negb] in H|];
      injection H as <-; (split; [|reflexivity]);
      (split; [reflexivity|split; [|discriminate]]); cbn;
      repeat split; try discriminate; apply truthy_defined; assumption.
  - apply bind_Normal in H as (v & _ & [= <-]).
    split; [|reflexivity]. split; [reflexivity|split; [|discriminate]]; cbn.
    repeat split; discriminate.
Qed.

Lemma visit_compareStatement_well_tagged ctx c :
  visit_compareStatement ctx = Normal c -> well_tagged c /\ exclude c = None.
Proof.
  unfold visit_compareStatement. intros H.
  apply bind_Normal in H as (name & _ & H).
  apply bind_Normal in H as (v & _ & H).
  destruct (compareStatement_GT ctx), (compareStatement_GTE ctx),
           (compareStatement_LT ctx), (compareStatement_LTE ctx);
    injection H as <-; (split; [|reflexivity]);
    (split; [reflexivity|split; [|discriminate]]); cbn;
    repeat split; discriminate.
Qed.



Lemma truthy_Undefined : truthy Undefined = false.
Proof. reflexivity. Qed.














(** C10. The [exclude] property of a filter [parse] returns is either
    not there or [true]; it is never [false]. *)
Theorem C10_exclude_is_absent_or_true (input : text) (cs : list (option Filter))
    (c : Filter) :
  parse input = Normal cs -> In (Some c) cs ->
  exclude c = None \/ exclude c = Some true.
Proof.
  revert input cs c. apply parse_filters.
  apply visit_statement_filters.
  - intros ctx c H. left. apply (visit_fieldStatement_well_tagged ctx c H).
  - intros ctx c H. left. apply (visit_compareStatement_well_tagged ctx c H).
  - intros v. left. reflexivity.
  - intros c [H|H]; unfold toggle_exclude; cbn [exclude]; rewrite H; auto.
Qed.

Lemma C10_exclude_witness :
  exclude (toggle_exclude (Term_filter (js "x"))) = None
  \/ exclude (toggle_exclude (Term_filter (js "x"))) = Some true.
Proof.
  apply (C10_exclude_is_absent_or_true (js "NOT x")
           [Some (toggle_exclude (Term_filter (js "x")))]).
  - vm_compute. reflexivity.
  - left. reflexivity.
Defined.

(** ** Bare words *)

Lemma is_plain_spec c :
  is_plain c = true ->
  is_space c = false /\ eqc c backslash = false /\ eqc c colon = false
  /\ eqc c dot = false /\ eqc c quote = false /\ eqc c star = false
  /\ eqc c minus = false.
Proof.
  unfold is_plain. rewrite negb_true_iff, !orb_false_iff. tauto.
Qed.

Ltac plain_facts H :=
  let Hs := fresh "Hspace" in let Hb := fresh "Hbackslash" in
  let Hc := fresh "Hcolon" in let Hd := fresh "Hdot" in
  let Hq := fresh "Hquote" in let Ht := fresh "Hstar" in
  let Hm := fresh "Hminus" in
  destruct (is_plain_spec _ H) as (Hs & Hb & Hc & Hd & Hq & Ht & Hm).

Lemma term_run_plain w : forallb is_plain w = true -> term_run w = length w.
Proof.
  induction w as [|c r IH]; cbn [forallb term_run length]; [reflexivity|].
  intros H. apply andb_prop in H as [Hc Hr]. plain_facts Hc.
  rewrite Hbackslash. unfold is_term_char.
  rewrite Hbackslash, Hspace, Hcolon, Hdot. cbn [orb negb].
  rewrite IH; trivial.
Qed.

Lemma Term_pattern_plain w :
  w <> [] -> forallb is_plain w = true -> Term_pattern w = Some (length w).
Proof.
  intros Hne H. unfold Term_pattern. rewrite (term_run_plain w H).
  destruct w; [congruence|reflexivity].
Qed.

Lemma escapeTerm_plain w : forallb is_plain w = true -> escapeTerm w = w.
Proof.
  induction w as [|c r IH]; cbn [forallb escapeTerm]; [reflexivity|].
  intros H. apply andb_prop in H as [Hc Hr]. plain_facts Hc.
  rewrite Hbackslash, IH; trivial.
Qed.

(** The patterns that a plain first character rules out. *)
Lemma plain_head_no_match ty c r :
  is_plain c = true ->
  one_of [SP; Minus; GTE; GT; LTE; LT; EQ; DoubleDot; Star; QuotedTerm] ty = true ->
  PATTERN ty (c :: r) = None.
Proof.
  intros Hc Hty. plain_facts Hc.
  destruct ty; try discriminate Hty; cbn [PATTERN];
    unfold SP_pattern, Minus_pattern, GTE_pattern, GT_pattern, LTE_pattern,
           LT_pattern, EQ_pattern, DoubleDot_pattern, Star_pattern,
           QuotedTerm_pattern, fixed, literal, chr;
    cbn [js list_ascii_of_string map prefix_matches span];
    change (N_of_ascii ":") with colon; change (N_of_ascii ".") with dot;
    change (N_of_ascii "-") with minus;
    rewrite ?Hspace, ?Hcolon, ?Hdot, ?Hminus, ?Hstar, ?Hquote; reflexivity.
Qed.

(** A date needs a minus as its fifth character. *)
Lemma DateLiteral_pattern_plain w :
  forallb is_plain w = true -> DateLiteral_pattern w = None.
Proof.
  intros H. unfold DateLiteral_pattern.
  enough (E : prefix_matches date_part w = false) by (rewrite E; reflexivity).
  destruct w as [|c0 [|c1 [|c2 [|c3 [|c4 r]]]]]; cbn [date_part prefix_matches];
    rewrite ?andb_false_r; try reflexivity.
  cbn [forallb] in H.
  do 4 (apply andb_prop in H as [_ H]). apply andb_prop in H as [H4 _].
  plain_facts H4. unfold chr at 1. rewrite Hminus. cbn [andb].
  rewrite ?andb_false_r. reflexivity.
Qed.

Lemma eqc_eq c d : eqc c d = true -> c = d.
Proof. apply N.eqb_eq. Qed.

Lemma prefix_matches_literal l w :
  prefix_matches (map chr l) w = true -> exists rest, w = l ++ rest.
Proof.
  revert w. induction l as [|d l IH]; intros w; cbn [map prefix_matches].
  - exists w. reflexivity.
  - destruct w as [|c r]; [discriminate|]. intros H.
    apply andb_prop in H as [Hc Hr]. apply eqc_eq in Hc as ->.
    destruct (IH r Hr) as [rest ->]. exists rest. reflexivity.
Qed.

(** When the pattern of a token with [longer_alt: Term] matches a bare
    word, the token taken spans the whole word. *)
Lemma with_longer_alt_plain ty n w :
  w <> [] -> forallb is_plain w = true ->
  longer_alt ty = Some Term ->
  PATTERN ty w = Some n ->
  (n = length w -> ty <> Not) ->
  exists ty', with_longer_alt ty n w = (ty', length w)
              /\ one_of [ID; DateLiteral; NumberLiteral; Term] ty' = true.
Proof.
  intros Hne Hw Halt Hn Hnot. unfold with_longer_alt. rewrite Halt.
  cbn [PATTERN]. rewrite (Term_pattern_plain w Hne Hw).
  apply PATTERN_bounds in Hn as Hb.
  destruct (n <? length w) eqn:E.
  - exists Term. split; reflexivity.
  - apply Nat.ltb_ge in E. assert (n = length w) by lia. subst n.
    exists ty. split; [reflexivity|].
    destruct ty; try discriminate Halt; try reflexivity. now destruct Hnot.
Qed.

Lemma first_match_plain w :
  w <> [] -> forallb is_plain w = true -> w <> js "NOT" ->
  exists ty, first_match tokens w = Some (ty, length w)
             /\ one_of [ID; DateLiteral; NumberLiteral; Term] ty = true.
Proof.
  intros Hne Hw Hnot.
  assert (Hskip : forall ty tys,
             one_of [SP; Minus; GTE; GT; LTE; LT; EQ; DoubleDot; Star; QuotedTerm] ty = true ->
             first_match (ty :: tys) w = first_match tys w).
  { intros ty tys Hty. destruct w as [|c r]; [congruence|].
    cbn [forallb] in Hw. apply andb_prop in Hw as [Hc _].
    cbn [first_match]. rewrite (plain_head_no_match ty c r Hc Hty). reflexivity. }
  assert (Halt : forall ty tys,
             longer_alt ty = Some Term ->
             (forall n, PATTERN ty w = Some n -> n = length w -> ty <> Not) ->
             (exists ty', first_match tys w = Some (ty', length w)
                          /\ one_of [ID; DateLiteral; NumberLiteral; Term] ty' = true) ->
             exists ty', first_match (ty :: tys) w = Some (ty', length w)
                         /\ one_of [ID; DateLiteral; NumberLiteral; Term] ty' = true).
  { intros ty tys Hl Hn Hrest. cbn [first_match].
    destruct (PATTERN ty w) as [n|] eqn:E; [|exact Hrest].
    destruct (with_longer_alt_plain ty n w Hne Hw Hl E (Hn n eq_refl)) as (ty' & -> & Hty').
    exists ty'. split; [reflexivity|exact Hty']. }
  unfold tokens.
  rewrite Hskip by reflexivity.
  apply Halt; [reflexivity| |].
  { intros n Hn Hlen _. cbn [PATTERN] in Hn. unfold Not_pattern, fixed in Hn.
    destruct (prefix_matches (literal "NOT") w) eqn:E; [|discriminate].
    injection Hn as <-. apply prefix_matches_literal in E as [rest ->].
    rewrite length_app in Hlen. destruct rest; [|cbn in Hlen; lia].
    apply Hnot. apply app_nil_r. }
  rewrite Hskip by reflexivity.
  apply Halt; [reflexivity|discriminate|].
  do 7 (rewrite Hskip by reflexivity).
  apply Halt; [reflexivity|discriminate|].
  apply Halt; [reflexivity|discriminate|].
  rewrite Hskip by reflexivity.
  cbn [first_match PATTERN]. rewrite (Term_pattern_plain w Hne Hw).
  exists Term. split; reflexivity.
Qed.

Lemma tokenize_plain w :
  w <> [] -> forallb is_plain w = true -> w <> js "NOT" ->
  exists ty, tokenize w = [mkToken ty w]
             /\ one_of [ID; DateLiteral; NumberLiteral; Term] ty = true.
Proof.
  intros Hne Hw Hnot.
  destruct (first_match_plain w Hne Hw Hnot) as (ty & E & Hty).
  exists ty. split; [|exact Hty].
  rewrite <- (app_nil_r w) at 1.
  rewrite (tokenize_first w [] ty Hne) by (rewrite app_nil_r; exact E).
  destruct ty; try discriminate Hty; reflexivity.
Qed.

(** One token that is a term on its own resolves to one Term filter. *)
Lemma resolve_single_term ty w :
  one_of [ID; DateLiteral; NumberLiteral; Term] ty = true ->
  resolve [mkToken ty w]
  = Normal [Some (Term_filter match ty with Term => escapeTerm w | _ => w end)].
Proof. destruct ty; try discriminate; reflexivity. Qed.

(** C3, amended. A bare word -- one run of characters without white
    space, backslash, colon, dot, quote, star or minus -- other than
    the keyword [NOT] itself parses to exactly one Term filter whose
    value is the word; words that only begin with [NOT] are among
    them. *)
Theorem C3_bare_word_is_one_term (w : text) :
  w <> [] -> forallb is_plain w = true -> w <> js "NOT" ->
  parse w = Normal [Some (Term_filter w)].
Proof.
  intros Hne Hw Hnot.
  destruct (tokenize_plain w Hne Hw Hnot) as (ty & Htok & Hty).
  unfold parse. rewrite Htok. fold (resolve [mkToken ty w]).
  rewrite (resolve_single_term ty w Hty).
  destruct ty; try discriminate Hty; try reflexivity.
  rewrite (escapeTerm_plain w Hw). reflexivity.
Qed.

Lemma C3_bare_word_witness :
  parse (js "NOTE") = Normal [Some (Term_filter (js "NOTE"))].
Proof.
  apply (C3_bare_word_is_one_term (js "NOTE")).
  - discriminate.
  - reflexivity.
  - discriminate.
Defined.

(** C3 as stated fails on the word [NOT]: it is a bare word, it is
    tokenized as the keyword, and [parse] does not answer with a Term
    filter. *)
Lemma C3_NOT_is_not_a_term :
  js "NOT" <> [] /\ forallb is_plain (js "NOT") = true
  /\ show_tokens (tokenize (js "NOT")) = [(Not, js "NOT")]
  /\ parse (js "NOT") <> Normal [Some (Term_filter (js "NOT"))].
Proof.
  split; [discriminate|]. split; [reflexivity|]. split; [reflexivity|].
  assert (E : parse (js "NOT") = Throw TypeError) by (vm_compute; reflexivity).
  rewrite E. discriminate.
Qed.

(** ** Negation *)

Lemma first_match_SP t :
  span is_space t <> 0 -> first_match tokens t = Some (SP, span is_space t).
Proof.
  intros H. unfold tokens. cbn [first_match PATTERN]. unfold SP_pattern.
  destruct (span is_space t); [congruence|reflexivity].
Qed.

(** White space in front of a text leaves no token. *)
Lemma tokenize_skip_space t : tokenize t = tokenize (skipn (span is_space t) t).
Proof.
  destruct (span is_space t) as [|k] eqn:E; [reflexivity|].
  pose proof (span_le is_space t) as Hle. rewrite E in Hle.
  assert (Hlen : length (firstn (S k) t) = S k) by (rewrite length_firstn; lia).
  rewrite <- (firstn_skipn (S k) t) at 1.
  rewrite (tokenize_first (firstn (S k) t) (skipn (S k) t) SP); [reflexivity| |].
  - intros Hnil. rewrite Hnil in Hlen. discriminate Hlen.
  - rewrite firstn_skipn, Hlen, <- E. apply first_match_SP. lia.
Qed.

Lemma tokenize_after_space x : tokenize (32%N :: x) = tokenize x.
Proof.
  rewrite (tokenize_skip_space (32%N :: x)), (tokenize_skip_space x). reflexivity.
Qed.

Lemma tokenize_NOT x :
  tokenize (js "NOT " ++ x) = mkToken Not (js "NOT") :: tokenize x.
Proof.
  change (js "NOT " ++ x) with (js "NOT" ++ 32%N :: x).
  rewrite (tokenize_first (js "NOT") (32%N :: x) Not); [|discriminate|reflexivity].
  rewrite tokenize_after_space. reflexivity.
Qed.

Lemma tokenize_minus x :
  tokenize (js "-" ++ x) = mkToken Minus (js "-") :: tokenize x.
Proof.
  rewrite (tokenize_first (js "-") x Minus); [reflexivity|discriminate|reflexivity].
Qed.

(** *** A rule never gives back more input than it was given *)

Lemma CONSUME_le e f ts t r : CONSUME e f ts = Some (t, r) -> length r <= length ts.
Proof.
  unfold CONSUME.
  destruct (TokenType_eqb (LA ts) e).
  { destruct ts; [discriminate|]. intros [= _ <-]. cbn [length]. lia. }
  destruct (one_of f (LA ts)); [intros [= _ <-]; lia|].
  destruct (TokenType_eqb (LA (tl ts)) e); [|discriminate].
  destruct ts as [|t0 [|t1 r1]]; try discriminate.
  intros [= _ <-]. cbn [length]. lia.
Qed.

Lemma reSyncTo_le f ts : length (reSyncTo f ts) <= length ts.
Proof.
  induction ts as [|t r IH]; cbn [reSyncTo length]; [lia|].
  destruct (one_of f (tokenType t)); cbn [length]; lia.
Qed.

Lemma SUBRULE_rest_le {A} F outer (rule : list TokenType -> list IToken -> outcome A) ts :
  length (rest_of (SUBRULE F outer rule ts))
  <= length (rest_of (rule (F ++ outer) ts)).
Proof.
  unfold SUBRULE. destruct (rule (F ++ outer) ts) as [n r|n r]; cbn [rest_of]; [lia|].
  pose proof (reSyncTo_le (F ++ outer) r).
  destruct (one_of F (LA (reSyncTo (F ++ outer) r))); cbn [rest_of]; lia.
Qed.

Create HintDb rest_le.

Ltac rest_le_step :=
  match goal with
  | |- context [SUBRULE ?F ?o ?rule ?ts] =>
      let H := fresh "Hsub" in let H' := fresh "Hrule" in
      pose proof (SUBRULE_rest_le F o rule ts) as H;
      assert (H' : length (rest_of (rule (F ++ o) ts)) <= length ts)
        by auto with rest_le;
      destruct (SUBRULE F o rule ts); cbn [rest_of] in *
  | |- context [CONSUME ?e ?f ?ts] =>
      let E := fresh "Econsume" in
      destruct (CONSUME e f ts) as [[? ?]|] eqn:E; [apply CONSUME_le in E|]
  | |- context [match ?x with _ => _ end] => is_var x; destruct x
  | |- context [match tokenType ?t with _ => _ end] => destruct (tokenType t)
  | |- context [match LA ?ts with _ => _ end] => destruct (LA ts)
  | |- context [match ?x with _ => _ end] => destruct x eqn:?
  end.

Ltac rest_le := repeat (cbn [rest_of length] in *; try rest_le_step); try lia.

Lemma identifier_le next outer ts :
  length (rest_of (identifier next outer ts)) <= length ts.
Proof. unfold identifier. rest_le. Qed.
#[local] Hint Resolve identifier_le : rest_le.

Lemma comparable_le outer ts : length (rest_of (comparable outer ts)) <= length ts.
Proof. unfold comparable. rest_le. Qed.
#[local] Hint Resolve comparable_le : rest_le.

Lemma term_le outer ts : length (rest_of (term outer ts)) <= length ts.
Proof. unfold term. rest_le. Qed.
#[local] Hint Resolve term_le : rest_le.

Lemma rangeLeft_le outer ts : length (rest_of (rangeLeft outer ts)) <= length ts.
Proof. unfold rangeLeft. rest_le. Qed.
#[local] Hint Resolve rangeLeft_le : rest_le.

Lemma rangeRight_le outer ts : length (rest_of (rangeRight outer ts)) <= length ts.
Proof. unfold rangeRight. rest_le. Qed.
#[local] Hint Resolve rangeRight_le : rest_le.

Lemma range_le outer ts : length (rest_of (range outer ts)) <= length ts.
Proof. unfold range. rest_le. Qed.
#[local] Hint Resolve range_le : rest_le.

Lemma fieldStatement_le outer ts :
  length (rest_of (fieldStatement outer ts)) <= length ts.
Proof. unfold fieldStatement. rest_le. Qed.
#[local] Hint Resolve fieldStatement_le : rest_le.

Lemma compareStatement_le outer ts :
  length (rest_of (compareStatement outer ts)) <= length ts.
Proof. unfold compareStatement. rest_le. Qed.
#[local] Hint Resolve compareStatement_le : rest_le.

Lemma SUBRULE_nil {A} outer (rule : list TokenType -> list IToken -> outcome A) ts :
  SUBRULE [] outer rule ts = rule outer ts.
Proof. unfold SUBRULE. cbn [app]. destruct (rule outer ts); reflexivity. Qed.

Lemma SUBRULE_map {A B} (g : A -> B) F outer
    (rule1 : list TokenType -> list IToken -> outcome B)
    (rule2 : list TokenType -> list IToken -> outcome A) ts1 ts2 :
  rule1 (F ++ outer) ts1 = map_outcome g (rule2 (F ++ outer) ts2) ->
  SUBRULE F outer rule1 ts1 = map_outcome g (SUBRULE F outer rule2 ts2).
Proof.
  intros E. unfold SUBRULE. rewrite E.
  destruct (rule2 (F ++ outer) ts2) as [n r|n r]; cbn [map_outcome]; [reflexivity|].
  destruct (one_of F (LA (reSyncTo (F ++ outer) r))); reflexivity.
Qed.

Lemma rest_of_map {A B} (g : A -> B) (o : outcome A) :
  rest_of (map_outcome g o) = rest_of o.
Proof. destruct o; reflexivity. Qed.

Lemma node_of_map {A B} (g : A -> B) (o : outcome A) :
  node_of (map_outcome g o) = g (node_of o).
Proof. destruct o; reflexivity. Qed.

Lemma node_of_SUBRULE {A} F outer (rule : list TokenType -> list IToken -> outcome A) ts :
  node_of (SUBRULE F outer rule ts) = node_of (rule (F ++ outer) ts).
Proof.
  unfold SUBRULE. destruct (rule (F ++ outer) ts) as [n r|n r]; [reflexivity|].
  destruct (one_of F (LA (reSyncTo (F ++ outer) r))); reflexivity.
Qed.

(** A negation token in front of the input wraps what [statement]
    makes of the rest, whether that is returned or raised. *)
Lemma statement_negation outer t ts :
  one_of [Not; Minus] (tokenType t) = true ->
  statement outer (t :: ts) = map_outcome (negated t) (statement outer ts).
Proof.
  destruct t as [ty img]. cbn [tokenType]. intros Hty.
  destruct ty; try discriminate Hty; cbn [statement tokenType];
    rewrite SUBRULE_nil; unfold negativeStatement; cbn [tokenType];
    rewrite SUBRULE_nil; destruct (statement outer ts); reflexivity.
Qed.

Lemma identifier_takes_ID F outer next img r :
  SUBRULE F outer (identifier next) (mkToken ID img :: r)
  = Done (mkIdentifier (Some (mkToken ID img))) r.
Proof. reflexivity. Qed.

Lemma statement_le outer ts : length (rest_of (statement outer ts)) <= length ts.
Proof.
  induction ts as [|[ty img] r IH]; [cbn; lia|].
  destruct ty;
    try (rewrite statement_negation by reflexivity; rewrite rest_of_map;
         cbn [length]; lia);
    cbn [statement tokenType]; rest_le.
Qed.
#[local] Hint Resolve statement_le : rest_le.

(** Where a statement can start, [statement] takes at least the token
    in front. *)
Lemma statement_lt outer ts :
  one_of statement_first (LA ts) = true ->
  length (rest_of (statement outer ts)) < length ts.
Proof.
  destruct ts as [|[ty img] r]; [discriminate|]. cbn [LA tokenType length].
  intros Hty. destruct ty; try discriminate Hty.
  - rewrite statement_negation by reflexivity. rewrite rest_of_map.
    pose proof (statement_le outer r). lia.
  - rewrite statement_negation by reflexivity. rewrite rest_of_map.
    pose proof (statement_le outer r). lia.
  - cbn [statement tokenType].
    destruct (LA r); rewrite SUBRULE_nil;
      first [progress unfold fieldStatement
            |progress unfold compareStatement
            |progress unfold term];
      cbn [tokenType]; rewrite identifier_takes_ID; rest_le.
  - cbn [statement tokenType]. rewrite SUBRULE_nil. cbn. lia.
  - cbn [statement tokenType]. rewrite SUBRULE_nil. cbn. lia.
  - cbn [statement tokenType]. rewrite SUBRULE_nil. cbn. lia.
  - cbn [statement tokenType]. rewrite SUBRULE_nil. cbn. lia.
Qed.

Lemma SUBRULE_statement_lt outer ts :
  one_of statement_first (LA ts) = true ->
  length (rest_of (SUBRULE statement_first outer statement ts)) < length ts.
Proof.
  intros H. pose proof (SUBRULE_rest_le statement_first outer statement ts).
  pose proof (statement_lt (statement_first ++ outer) ts H). lia.
Qed.

(** *** The repetition *)

Lemma MANY_statement_acc fuel outer a ts :
  MANY_statement fuel outer a ts
  = map_outcome (prepend a) (MANY_statement fuel outer [] ts).
Proof.
  revert a ts. induction fuel as [|fuel IH]; intros a ts; cbn [MANY_statement].
  - cbn. unfold prepend. cbn. rewrite app_nil_r. reflexivity.
  - destruct (one_of statement_first (LA ts)).
    + destruct (SUBRULE statement_first outer statement ts) as [s r|s r].
      * destruct (length r <? length ts); [|reflexivity].
        rewrite (IH (a ++ [s])), (IH ([] ++ [s])).
        destruct (MANY_statement fuel outer [] r); cbn; unfold prepend; cbn;
          rewrite <- app_assoc; reflexivity.
      * reflexivity.
    + destruct ts as [|t [|t2 r]]; cbn; unfold prepend; cbn;
        rewrite ?app_nil_r; try reflexivity. apply IH.
Qed.

(** The repetition does not run out of fuel. *)
Lemma MANY_statement_fuel f1 f2 outer a ts :
  length ts < f1 -> length ts < f2 ->
  MANY_statement f1 outer a ts = MANY_statement f2 outer a ts.
Proof.
  revert f2 a ts. induction f1 as [|f1 IH]; intros f2 a ts H1 H2; [lia|].
  destruct f2 as [|f2]; [lia|]. cbn [MANY_statement].
  destruct (one_of statement_first (LA ts)).
  - destruct (SUBRULE statement_first outer statement ts) as [s r|s r]; [|reflexivity].
    destruct (length r <? length ts) eqn:E; [|reflexivity].
    apply Nat.ltb_lt in E. apply IH; lia.
  - destruct ts as [|t [|t2 r]]; try reflexivity. apply IH; cbn [length] in *; lia.
Qed.

Lemma parser_statements_returns ts :
  exists r, SUBRULE [EOF] [] statements ts = Done (parser_statements ts) r.
Proof.
  unfold parser_statements, SUBRULE.
  destruct (statements ([EOF] ++ []) ts) as [n r|n r]; [eauto|].
  assert (E : LA (reSyncTo ([EOF] ++ []) r) = EOF).
  { induction r as [|t r IH]; [reflexivity|]. cbn [reSyncTo app].
    destruct (one_of [EOF] (tokenType t)) eqn:Et; [|exact IH].
    cbn [LA]. destruct (tokenType t); try discriminate Et. reflexivity. }
  rewrite E. cbn. eauto.
Qed.

Lemma MANY_statement_step fuel outer acc ts :
  MANY_statement (S fuel) outer acc ts
  = if one_of statement_first (LA ts) then
      match SUBRULE statement_first outer statement ts with
      | Done s r =>
          if length r <? length ts
          then MANY_statement fuel outer (acc ++ [s]) r
          else Done (mkStatements (acc ++ [s])) r
      | Raised s r => Raised (mkStatements (acc ++ [s])) r
      end
    else
      match ts with
      | _ :: (_ :: _) as r => MANY_statement fuel outer acc r
      | _ => Done (mkStatements acc) ts
      end.
Proof. reflexivity. Qed.

(** A negation token in front of a statement start only wraps the
    first statement node: the rest of the repetition goes as before. *)
Lemma statements_negation outer t ts :
  one_of [Not; Minus] (tokenType t) = true ->
  one_of statement_first (LA ts) = true ->
  statements outer (t :: ts) = map_outcome (on_first (negated t)) (statements outer ts).
Proof.
  intros Ht Hts. unfold statements. cbn [length].
  assert (Ht' : one_of statement_first (LA (t :: ts)) = true)
    by (cbn [LA]; destruct (tokenType t); try discriminate Ht; reflexivity).
  rewrite (MANY_statement_step (S (length ts)) outer [] (t :: ts)).
  rewrite (MANY_statement_step (length ts) outer [] ts).
  rewrite Ht', Hts.
  rewrite (SUBRULE_map (negated t) statement_first outer statement statement (t :: ts) ts)
    by (apply statement_negation; exact Ht).
  pose proof (SUBRULE_statement_lt outer ts Hts) as Hlt.
  destruct (SUBRULE statement_first outer statement ts) as [s r|s r];
    cbn [map_outcome rest_of] in *; [|reflexivity].
  assert (E1 : (length r <? length (t :: ts)) = true)
    by (apply Nat.ltb_lt; cbn [length]; lia).
  assert (E2 : (length r <? length ts) = true) by (apply Nat.ltb_lt; lia).
  rewrite E1, E2.
  rewrite (MANY_statement_acc _ outer ([] ++ [negated t s])).
  rewrite (MANY_statement_acc _ outer ([] ++ [s])).
  rewrite (MANY_statement_fuel (S (length ts)) (length ts) outer [] r) by lia.
  destruct (MANY_statement (length ts) outer [] r); reflexivity.
Qed.

Lemma parser_statements_negation t ts :
  one_of [Not; Minus] (tokenType t) = true ->
  one_of statement_first (LA ts) = true ->
  parser_statements (t :: ts) = on_first (negated t) (parser_statements ts).
Proof.
  intros Ht Hts. unfold parser_statements.
  rewrite (SUBRULE_map (on_first (negated t)) [EOF] [] statements statements (t :: ts) ts)
    by (apply statements_negation; assumption).
  apply node_of_map.
Qed.

Lemma visit_statement_negated t s :
  visit_statement (negated t s)
  = (node <- visit_statement s ;;
     match node with
     | None => Throw TypeError
     | Some n => Normal (Some (toggle_exclude n))
     end).
Proof. unfold negated. destruct (tokenType t); reflexivity. Qed.

(** One wrapper, at the level of tokens. *)
Lemma resolve_negation t ts c :
  one_of [Not; Minus] (tokenType t) = true ->
  one_of statement_first (LA ts) = true ->
  resolve ts = Normal [Some c] ->
  resolve (t :: ts) = Normal [Some (toggle_exclude c)].
Proof.
  intros Ht Hts. unfold resolve. rewrite (parser_statements_negation t ts Ht Hts).
  destruct (parser_statements ts) as [nodes]. unfold visit_statements, on_first.
  cbn [statements_statement]. destruct nodes as [|s more]; [discriminate|].
  cbn [statements_statement visit_each]. intros H.
  apply bind_Normal in H as (f & Hs & H).
  apply bind_Normal in H as (fs & Hmore & [= -> ->]).
  rewrite visit_statement_negated, Hs. cbn [bind]. rewrite Hmore. reflexivity.
Qed.

(** The first statement node is what [statement] makes of the input. *)
Lemma parser_statements_first ts :
  one_of statement_first (LA ts) = true ->
  exists more,
    statements_statement (parser_statements ts)
    = node_of (statement (statement_first ++ [EOF]) ts) :: more.
Proof.
  intros Hts. unfold parser_statements. rewrite node_of_SUBRULE.
  unfold statements. cbn [MANY_statement app]. rewrite Hts.
  pose proof (node_of_SUBRULE statement_first [EOF] statement ts) as Hn.
  destruct (SUBRULE statement_first [EOF] statement ts) as [s r|s r];
    cbn [node_of] in Hn; rewrite <- Hn.
  - destruct (length r <? length ts).
    + rewrite MANY_statement_acc.
      destruct (MANY_statement (length ts) [EOF] [] r) as [n r'|n r']; cbn; eauto.
    + cbn. eauto.
  - cbn. eauto.
Qed.

(** A statement that does not start with a negation token is not a
    negation node. *)
Lemma statement_plain_node outer ts :
  one_of [Not; Minus] (LA ts) = false ->
  exists f c t, node_of (statement outer ts) = mkStatement None f c t.
Proof.
  destruct ts as [|[ty img] r]; [intros _; exists None, None, None; reflexivity|].
  cbn [LA tokenType]. intros Hty.
  destruct ty; try discriminate Hty; cbn [statement tokenType];
    try (do 3 eexists; reflexivity);
    try (destruct (SUBRULE [] outer term (mkToken _ img :: r));
         do 3 eexists; reflexivity).
  destruct (LA r);
    try (destruct (SUBRULE [] outer term (mkToken ID img :: r));
         do 3 eexists; reflexivity);
    try (destruct (SUBRULE [] outer fieldStatement (mkToken ID img :: r));
         do 3 eexists; reflexivity);
    destruct (SUBRULE [] outer compareStatement (mkToken ID img :: r));
    do 3 eexists; reflexivity.
Qed.

Lemma visit_plain_statement_exclude f cmp t c :
  visit_statement (mkStatement None f cmp t) = Normal (Some c) -> exclude c = None.
Proof.
  destruct f as [f|]; [|destruct cmp as [cmp|]; [|destruct t as [t|]]];
    cbn [visit_statement]; intros H; try discriminate H;
    apply bind_Normal in H as (n & Hn & [= <-]).
  - apply (visit_fieldStatement_well_tagged f n Hn).
  - apply (visit_compareStatement_well_tagged cmp n Hn).
  - reflexivity.
Qed.

Lemma resolve_plain_exclude ts c :
  one_of statement_first (LA ts) = true ->
  one_of [Not; Minus] (LA ts) = false ->
  resolve ts = Normal [Some c] -> exclude c = None.
Proof.
  intros Hts Hplain. unfold resolve, visit_statements.
  destruct (parser_statements_first ts Hts) as (more & ->).
  destruct (statement_plain_node (statement_first ++ [EOF]) ts Hplain) as (f & cmp & t & ->).
  cbn [visit_each]. intros H.
  apply bind_Normal in H as (x & Hx & H).
  apply bind_Normal in H as (fs & _ & [= -> _]).
  exact (visit_plain_statement_exclude f cmp t c Hx).
Qed.

(** *** Wrappers in the text *)

Lemma parse_wrapper w y c :
  one_of statement_first (LA (tokenize y)) = true ->
  parse y = Normal [Some c] ->
  parse (wrapper_text w ++ y) = Normal [Some (toggle_exclude c)]
  /\ one_of statement_first (LA (tokenize (wrapper_text w ++ y))) = true.
Proof.
  intros Hy Hc. change (parse y) with (resolve (tokenize y)) in Hc.
  destruct w; cbn [wrapper_text];
    change (parse ?t) with (resolve (tokenize t));
    rewrite ?tokenize_NOT, ?tokenize_minus;
    (split; [apply resolve_negation; [reflexivity|exact Hy|exact Hc]|reflexivity]).
Qed.

(** Each wrapper toggles once, whatever the statement behind it. *)
Lemma parse_wrapped ws x c :
  one_of statement_first (LA (tokenize x)) = true ->
  parse x = Normal [Some c] ->
  parse (wrapped ws x) = Normal [Some (Nat.iter (length ws) toggle_exclude c)]
  /\ one_of statement_first (LA (tokenize (wrapped ws x))) = true.
Proof.
  intros Hx Hc. induction ws as [|w ws [IHp IHs]]; cbn [wrapped length].
  - split; assumption.
  - rewrite Nat.iter_succ. apply parse_wrapper; assumption.
Qed.

Lemma toggle_exclude_iter c n :
  exclude c = None ->
  Nat.iter n toggle_exclude c = if Nat.odd n then with_exclude c else c.
Proof.
  intros Hc. induction n as [|n IH]; [reflexivity|].
  rewrite Nat.iter_succ, IH, Nat.odd_succ, <- Nat.negb_odd.
  destruct c as [ty k f v a b e]. cbn [exclude] in Hc. subst e.
  destruct (Nat.odd n); reflexivity.
Qed.

(** C5. Let [x] be a statement that is not itself a negation, parsing
    to the one filter [c].  Then [c] has no exclude flag; [NOT x] and
    [-x] parse to [c] with [exclude = true]; [NOT NOT x] parses to [c]
    again; and behind any sequence of [NOT] and [-] wrappers the filter
    is marked when their number is odd and unmarked when it is even. *)
Theorem C5_negation_toggles_exclude (x : text) (c : Filter) :
  one_of [ID; DateLiteral; NumberLiteral; Term; QuotedTerm] (LA (tokenize x)) = true ->
  parse x = Normal [Some c] ->
  exclude c = None
  /\ parse (js "NOT " ++ x) = Normal [Some (with_exclude c)]
  /\ parse (js "-" ++ x) = Normal [Some (with_exclude c)]
  /\ parse (js "NOT NOT " ++ x) = Normal [Some c]
  /\ forall ws : list wrapper,
       parse (wrapped ws x)
       = Normal [Some (if Nat.odd (length ws) then with_exclude c else c)].
Proof.
  intros Hx Hc.
  assert (Hfirst : one_of statement_first (LA (tokenize x)) = true)
    by (destruct (LA (tokenize x)); try discriminate Hx; reflexivity).
  assert (Hplain : one_of [Not; Minus] (LA (tokenize x)) = false)
    by (destruct (LA (tokenize x)); try discriminate Hx; reflexivity).
  assert (He : exclude c = None)
    by (apply (resolve_plain_exclude (tokenize x) c Hfirst Hplain); exact Hc).
  assert (Hall : forall ws : list wrapper,
             parse (wrapped ws x)
             = Normal [Some (if Nat.odd (length ws) then with_exclude c else c)]).
  { intros ws. destruct (parse_wrapped ws x c Hfirst Hc) as [-> _].
    rewrite (toggle_exclude_iter c (length ws) He). reflexivity. }
  split; [exact He|]. split; [exact (Hall [NOT_wrapper])|].
  split; [exact (Hall [minus_wrapper])|].
  split; [exact (Hall [NOT_wrapper; NOT_wrapper])|exact Hall].
Qed.

Lemma C5_negation_witness :
  parse (js "NOT status:open")
    = Normal [Some (with_exclude
                      (mkFilter FilterType.Field "Field" (Some (Str (js "status")))
                                (Some (Str (js "open"))) None None None))]
  /\ parse (js "NOT NOT status:open")
    = Normal [Some (mkFilter FilterType.Field "Field" (Some (Str (js "status")))
                             (Some (Str (js "open"))) None None None)].
Proof.
  destruct (C5_negation_toggles_exclude (js "status:open")
              (mkFilter FilterType.Field "Field" (Some (Str (js "status")))
                        (Some (Str (js "open"))) None None None))
    as (_ & Hnot & _ & Hnotnot & _).
  - vm_compute. reflexivity.
  - vm_compute. reflexivity.
  - split; [exact Hnot|exact Hnotnot].
Defined.

(** ** The images the visitor is handed

    [Number] and [JSON_parse] above are written for the texts the
    lexer gives them: a NumberLiteral image is a decimal literal, a
    QuotedTerm image starts with a quote. *)

Lemma span_split p s :
  forallb p (firstn (span p s) s) = true
  /\ length (firstn (span p s) s) = span p s
  /\ match skipn (span p s) s with c :: _ => p c = false | [] => True end.
Proof.
  induction s as [|c r (IH1 & IH2 & IH3)]; cbn [span]; [repeat split|].
  destruct (p c) eqn:E; cbn [firstn skipn forallb length].
  - rewrite E, IH1, IH2. repeat split. exact IH3.
  - repeat split. exact E.
Qed.

Lemma span_app_stop p d x :
  forallb p d = true ->
  match x with c :: _ => p c = false | [] => True end ->
  span p (d ++ x) = length d.
Proof.
  intros Hd Hx. induction d as [|c d IH]; cbn [app span length].
  - destruct x as [|c r]; [reflexivity|]. cbn [span]. rewrite Hx. reflexivity.
  - cbn [forallb] in Hd. apply andb_prop in Hd as [Hc Hd]. rewrite Hc, IH; trivial.
Qed.

Lemma digits_value_all l acc :
  forallb is_digit l = true -> exists v, digits_value acc l = Some v.
Proof.
  revert acc. induction l as [|c r IH]; intros acc; cbn [forallb digits_value].
  - eauto.
  - intros H. apply andb_prop in H as [Hc Hr]. rewrite Hc. apply IH, Hr.
Qed.

Lemma firstn_app_exact {A} (d x : list A) : firstn (length d) (d ++ x) = d.
Proof. rewrite firstn_app, Nat.sub_diag, firstn_all. cbn. apply app_nil_r. Qed.

Lemma skipn_app_exact {A} (d x : list A) : skipn (length d) (d ++ x) = x.
Proof. rewrite skipn_app, Nat.sub_diag, skipn_all. reflexivity. Qed.

Lemma Number_digits d :
  d <> [] -> forallb is_digit d = true -> exists v, Number d = Decimal v 0.
Proof.
  intros Hne Hd. unfold Number. cbv zeta.
  pose proof (span_app_stop is_digit d [] Hd I) as Hs. rewrite app_nil_r in Hs.
  rewrite Hs, skipn_all.
  destruct (digits_value_all d 0%N Hd) as [v ->].
  destruct d; [congruence|]. cbn [length]. eauto.
Qed.

Lemma Number_fraction d f :
  d <> [] -> f <> [] -> forallb is_digit d = true -> forallb is_digit f = true ->
  exists v, Number (d ++ dot :: f) = Decimal v (length f).
Proof.
  intros Hd Hf Ad Af. unfold Number. cbv zeta.
  rewrite (span_app_stop is_digit d (dot :: f) Ad eq_refl).
  rewrite skipn_app_exact, firstn_app_exact.
  assert (Adf : forallb is_digit (d ++ f) = true)
    by (rewrite forallb_app, Ad, Af; reflexivity).
  destruct (digits_value_all (d ++ f) 0%N Adf) as [v ->].
  change (eqc dot dot) with true.
  destruct d; [congruence|]. destruct f; [congruence|]. cbn [length]. eauto.
Qed.

Lemma NumberLiteral_image s n :
  NumberLiteral_pattern s = Some n -> exists c k, Number (firstn n s) = Decimal c k.
Proof.
  unfold NumberLiteral_pattern.
  destruct (span_split is_digit s) as (Hd & Hl & Hstop).
  set (a := span is_digit s) in *. set (d := firstn a s) in *.
  assert (Hs : s = d ++ skipn a s) by (symmetry; apply firstn_skipn).
  assert (Hdigits : a <> 0 -> exists v, Number (firstn a s) = Decimal v 0).
  { intros Ha. apply Number_digits; [|exact Hd].
    fold d. intros E. rewrite E in Hl. cbn in Hl. congruence. }
  destruct a as [|a'] eqn:Ea; [discriminate|]. rewrite <- Ea in *.
  destruct (skipn a s) as [|c r] eqn:Er.
  { intros [= <-]. destruct Hdigits as [v Hv]; [lia|eauto]. }
  destruct (eqc c dot) eqn:Ec; [|intros [= <-]; destruct Hdigits as [v Hv]; [lia|eauto]].
  apply eqc_eq in Ec. subst c.
  destruct (span_split is_digit r) as (Hf & Hfl & _).
  destruct (span is_digit r) as [|m] eqn:Em.
  { intros [= <-]. destruct Hdigits as [v Hv]; [lia|eauto]. }
  intros [= <-].
  assert (Himg : firstn (a + 1 + S m) s = d ++ dot :: firstn (S m) r).
  { rewrite Hs at 1. rewrite firstn_app, Hl.
    replace (a + 1 + S m - a) with (S (S m)) by lia.
    rewrite firstn_all2 by lia. reflexivity. }
  rewrite Himg.
  destruct (Number_fraction d (firstn (S m) r)) as [v Hv]; try assumption.
  - intros E. rewrite E in Hl. cbn in Hl. lia.
  - intros E. rewrite E in Hfl. cbn in Hfl. lia.
  - eauto.
Qed.

Lemma QuotedTerm_image s n :
  QuotedTerm_pattern s = Some n -> exists r, firstn n s = quote :: r.
Proof.
  unfold QuotedTerm_pattern. destruct s as [|c r]; [discriminate|].
  destruct (eqc c quote) eqn:E; [|discriminate]. apply eqc_eq in E. subst c.
  destruct (quoted_body r) as [k|]; [|discriminate].
  intros [= <-]. cbn [firstn]. eauto.
Qed.

(** The token taken at an offset is one its own pattern matches there. *)
Lemma first_match_PATTERN tys s ty n :
  first_match tys s = Some (ty, n) -> PATTERN ty s = Some n.
Proof.
  induction tys as [|ty0 tys IH]; cbn [first_match]; [discriminate|].
  destruct (PATTERN ty0 s) as [k|] eqn:E; [|exact IH].
  unfold with_longer_alt. destruct (longer_alt ty0) as [alt|].
  - destruct (PATTERN alt s) as [m|] eqn:Ealt.
    + destruct (k <? m); intros [= <- <-]; assumption.
    + intros [= <- <-]. exact E.
  - intros [= <- <-]. exact E.
Qed.

Lemma tokenize_loop_In fuel t tok :
  In tok (tokenize_loop fuel t) ->
  exists s n, PATTERN (tokenType tok) s = Some n /\ image tok = firstn n s.
Proof.
  revert t. induction fuel as [|fuel IH]; intros t; [intros []|].
  destruct t as [|c r]; [intros []|]. rewrite tokenize_loop_step.
  destruct (first_match tokens (c :: r)) as [[ty n]|] eqn:E; [|apply IH].
  cbv zeta. apply first_match_PATTERN in E.
  destruct (skipped ty); [apply IH|].
  intros [<-|Hin]; [|exact (IH _ Hin)].
  exists (c :: r), n. split; [exact E|reflexivity].
Qed.

Lemma tokenize_images t tok :
  In tok (tokenize t) ->
  match tokenType tok with
  | NumberLiteral => exists c k, Number (image tok) = Decimal c k
  | QuotedTerm => exists r, image tok = quote :: r
  | _ => True
  end.
Proof.
  intros Hin. destruct (tokenize_loop_In _ _ _ Hin) as (s & n & Hp & Hi).
  destruct (tokenType tok) eqn:Ety; try exact I; rewrite Hi; cbn [PATTERN] in Hp.
  - exact (NumberLiteral_image s n Hp).
  - exact (QuotedTerm_image s n Hp).
Qed.

(** X20. Of the tokens the lexer emits, a NumberLiteral image is a
    decimal literal, which [Number] reads as a number and never as
    [NaN], and a QuotedTerm image starts with a quote. *)
Theorem emitted_images_are_well_formed (t : text) (tok : IToken) :
  In tok (tokenize t) ->
  match tokenType tok with
  | NumberLiteral => exists c k, Number (image tok) = Decimal c k
  | QuotedTerm => exists r, image tok = quote :: r
  | _ => True
  end.
Proof.
  intros Hin. destruct (tokenize_loop_In _ _ _ Hin) as (s & n & Hp & Hi).
  destruct (tokenType tok) eqn:Ety; try exact I; rewrite Hi; cbn [PATTERN] in Hp.
  - exact (NumberLiteral_image s n Hp).
  - exact (QuotedTerm_image s n Hp).
Qed.

Lemma emitted_images_witness : exists c k, Number (js "1.5") = Decimal c k.
Proof.
  apply (emitted_images_are_well_formed (js "x:>1.5") (mkToken NumberLiteral (js "1.5"))).
  vm_compute. right. right. left. reflexivity.
Defined.

Lemma date_shapes_witness :
  tokenize (js "2024-02-29") = [mkToken DateLiteral (js "2024-02-29")]
  /\ tokenize (js "2024-02-29T23:59:59Z")
     = [mkToken DateLiteral (js "2024-02-29T23:59:59Z")]
  /\ tokenize (js "2024-02-29T23:59:59+05:30")
     = [mkToken DateLiteral (js "2024-02-29T23:59:59+05:30")].
Proof.
  apply (date_shapes_are_one_token 50 48 50 52 48 50 50 57 50 51 53 57 53 57 48 53 51 48)%N.
  reflexivity.
Defined.

(** * Further properties of the pipeline *)

(** ** How the repetition goes through the tokens *)

Lemma parser_statements_node ts :
  parser_statements ts = node_of (statements [EOF] ts).
Proof. unfold parser_statements. apply node_of_SUBRULE. Qed.

(** After a statement that returned, the repetition goes on with what
    the statement left. *)
Lemma parser_statements_Done ts s r :
  one_of statement_first (LA ts) = true ->
  SUBRULE statement_first [EOF] statement ts = Done s r ->
  statements_statement (parser_statements ts)
  = s :: statements_statement (parser_statements r).
Proof.
  intros Hts E. rewrite !parser_statements_node. unfold statements.
  rewrite MANY_statement_step, Hts, E.
  pose proof (SUBRULE_statement_lt [EOF] ts Hts) as Hlt. rewrite E in Hlt.
  cbn [rest_of] in Hlt.
  assert (Eg : (length r <? length ts) = true) by (apply Nat.ltb_lt; exact Hlt).
  rewrite Eg, MANY_statement_acc.
  rewrite (MANY_statement_fuel (length ts) (S (length r)) [EOF] [] r) by lia.
  destruct (MANY_statement (S (length r)) [EOF] [] r); reflexivity.
Qed.

(** A token that cannot start a statement is passed over. *)
Lemma parser_statements_skip t ts :
  one_of statement_first (tokenType t) = false ->
  parser_statements (t :: ts) = parser_statements ts.
Proof.
  intros Ht. rewrite !parser_statements_node. unfold statements.
  rewrite MANY_statement_step. cbn [LA]. rewrite Ht.
  destruct ts as [|t2 r]; [reflexivity|].
  rewrite (MANY_statement_fuel (length (t :: t2 :: r)) (S (length (t2 :: r))) [EOF] []
             (t2 :: r)) by (cbn [length]; lia).
  reflexivity.
Qed.

Lemma resolve_Done ts s r :
  one_of statement_first (LA ts) = true ->
  SUBRULE statement_first [EOF] statement ts = Done s r ->
  resolve ts = (f <- visit_statement s ;; fs <- resolve r ;; Normal (f :: fs)).
Proof.
  intros Hts E. unfold resolve, visit_statements.
  rewrite (parser_statements_Done ts s r Hts E). reflexivity.
Qed.

Lemma resolve_skip t ts :
  one_of statement_first (tokenType t) = false -> resolve (t :: ts) = resolve ts.
Proof. intros Ht. unfold resolve. rewrite (parser_statements_skip t ts Ht). reflexivity. Qed.

(** X14. Tokens none of which can start a statement -- operators, dots,
    stars -- resolve to the empty sequence: the engine drops them. *)
Theorem stray_tokens_resolve_to_nothing (ts : list IToken) :
  forallb (fun t => negb (one_of statement_first (tokenType t))) ts = true ->
  resolve ts = Normal [].
Proof.
  induction ts as [|t ts IH]; [reflexivity|]. cbn [forallb]. intros H.
  apply andb_prop in H as [Ht Hts]. apply negb_true_iff in Ht.
  rewrite (resolve_skip t ts Ht). exact (IH Hts).
Qed.

Lemma stray_tokens_witness : parse (js ":>= .. * :") = Normal [].
Proof.
  change (parse (js ":>= .. * :")) with (resolve (tokenize (js ":>= .. * :"))).
  apply stray_tokens_resolve_to_nothing. vm_compute. reflexivity.
Defined.

(** ** Negations with nothing behind them *)

Lemma statement_negations_only outer ts :
  ts <> [] ->
  forallb (fun t => one_of [Not; Minus] (tokenType t)) ts = true ->
  exists s, statement outer ts = Raised s []
            /\ visit_statement s = Throw TypeError.
Proof.
  induction ts as [|t ts IH]; [congruence|]. intros _ H. cbn [forallb] in H.
  apply andb_prop in H as [Ht Hts]. rewrite (statement_negation outer t ts Ht).
  destruct ts as [|t2 ts'].
  - exists (negated t no_statement). split; [reflexivity|].
    rewrite visit_statement_negated. reflexivity.
  - destruct (IH ltac:(discriminate) Hts) as (s & -> & Hs).
    exists (negated t s). split; [reflexivity|].
    rewrite visit_statement_negated, Hs. reflexivity.
Qed.

(** X13. An input that is nothing but negations ([NOT], [-], [NOT -], ...)
    makes [parse] throw a TypeError: the innermost statement node is
    empty, and [negativeStatement] reads [exclude] of [undefined]. *)
Theorem dangling_negation_throws (ts : list IToken) :
  ts <> [] ->
  forallb (fun t => one_of [Not; Minus] (tokenType t)) ts = true ->
  resolve ts = Throw TypeError.
Proof.
  intros Hne H.
  destruct (statement_negations_only (statement_first ++ [EOF]) ts Hne H) as (s & E & Hs).
  assert (Hts : one_of statement_first (LA ts) = true).
  { destruct ts as [|t r]; [congruence|]. cbn [forallb] in H.
    apply andb_prop in H as [Ht _]. cbn [LA].
    destruct (tokenType t); try discriminate Ht; reflexivity. }
  unfold resolve, visit_statements. rewrite parser_statements_node.
  unfold statements. rewrite MANY_statement_step, Hts.
  unfold SUBRULE. rewrite E. cbn [reSyncTo LA].
  change (one_of statement_first EOF) with false. cbv iota.
  cbn [node_of statements_statement app visit_each]. rewrite Hs. reflexivity.
Qed.

Lemma dangling_negation_witness : parse (js "NOT - NOT") = Throw TypeError.
Proof.
  change (parse (js "NOT - NOT")) with (resolve (tokenize (js "NOT - NOT"))).
  apply dangling_negation_throws; [discriminate|reflexivity].
Defined.

(** ** What the answer of [parse] is made of *)

Lemma statement_has_child outer ts :
  one_of statement_first (LA ts) = true ->
  has_child (node_of (statement outer ts)) = true.
Proof.
  destruct ts as [|[ty img] r]; [discriminate|]. cbn [LA tokenType]. intros Hty.
  destruct ty; try discriminate Hty;
    try (rewrite statement_negation by reflexivity; rewrite node_of_map; reflexivity);
    cbn [statement tokenType].
  - destruct (LA r);
      match goal with
      | |- context [SUBRULE ?F ?o ?rule ?ts] => destruct (SUBRULE F o rule ts)
      end; reflexivity.
  - destruct (SUBRULE [] outer term (mkToken DateLiteral img :: r)); reflexivity.
  - destruct (SUBRULE [] outer term (mkToken NumberLiteral img :: r)); reflexivity.
  - destruct (SUBRULE [] outer term (mkToken QuotedTerm img :: r)); reflexivity.
  - destruct (SUBRULE [] outer term (mkToken Term img :: r)); reflexivity.
Qed.

Lemma MANY_statement_nodes (P : statementCtx -> Prop) fuel outer acc ts :
  (forall ts', one_of statement_first (LA ts') = true ->
               P (node_of (statement (statement_first ++ outer) ts'))) ->
  Forall P acc ->
  Forall P (statements_statement (node_of (MANY_statement fuel outer acc ts))).
Proof.
  intros HP. revert acc ts. induction fuel as [|fuel IH]; intros acc ts Hacc; [exact Hacc|].
  rewrite MANY_statement_step.
  destruct (one_of statement_first (LA ts)) eqn:Hts.
  - pose proof (node_of_SUBRULE statement_first outer statement ts) as Hn.
    specialize (HP ts Hts). rewrite <- Hn in HP.
    assert (Hacc' : forall s, s = node_of (SUBRULE statement_first outer statement ts) ->
                              Forall P (acc ++ [s])).
    { intros s ->. apply Forall_app. split; [exact Hacc|]. constructor; [exact HP|constructor]. }
    destruct (SUBRULE statement_first outer statement ts) as [s r|s r]; cbn [node_of] in *.
    + destruct (length r <? length ts); [apply IH|]; apply Hacc'; reflexivity.
    + apply Hacc'. reflexivity.
  - destruct ts as [|t [|t2 r]]; try exact Hacc. apply IH, Hacc.
Qed.

Lemma parser_statements_have_children ts :
  Forall (fun s => has_child s = true) (statements_statement (parser_statements ts)).
Proof.
  rewrite parser_statements_node. unfold statements.
  apply MANY_statement_nodes; [|constructor].
  intros ts' H. apply statement_has_child, H.
Qed.

Lemma visit_statement_with_child s f :
  has_child s = true -> visit_statement s = Normal f -> f <> None.
Proof.
  destruct s as [[[n m s']|] [fs|] [cs|] [t|]]; cbn [has_child visit_statement visit_negativeStatement];
    intros Hc H; try discriminate Hc;
    try (apply bind_Normal in H as (x & _ & [= <-]); discriminate);
    apply bind_Normal in H as ([node|] & _ & H); try discriminate H;
    injection H as <-; discriminate.
Qed.

(** X16. Every entry of the array [parse] returns is a filter object, never
    [undefined]: the repetition only enters a statement where one of
    its alternatives applies. *)
Theorem parse_returns_filters_only (input : text) (cs : list (option Filter)) :
  parse input = Normal cs -> Forall (fun o => o <> None) cs.
Proof.
  unfold parse, visit_statements.
  pose proof (parser_statements_have_children (tokenize input)) as Hn.
  revert cs Hn. generalize (statements_statement (parser_statements (tokenize input))).
  induction l as [|s more IH]; intros cs Hn; cbn [visit_each].
  - intros [= <-]. constructor.
  - inversion Hn as [|? ? Hs Hmore]; subst. intros H.
    apply bind_Normal in H as (f & Hf & H).
    apply bind_Normal in H as (fs & Hfs & [= <-]).
    constructor; [exact (visit_statement_with_child s f Hs Hf)|exact (IH fs Hmore Hfs)].
Qed.

Lemma parse_returns_filters_only_witness :
  Forall (fun o : option Filter => o <> None)
         [Some (Term_filter (js "a")); Some (Term_filter (js "b"))].
Proof.
  apply (parse_returns_filters_only (js "a b")). vm_compute. reflexivity.
Defined.

(** ** Double negation, for every statement *)

Lemma visit_statement_exclude ctx c :
  visit_statement ctx = Normal (Some c) -> exclude c = None \/ exclude c = Some true.
Proof.
  revert ctx c. apply visit_statement_filters.
  - intros ctx c H. left. apply (visit_fieldStatement_well_tagged ctx c H).
  - intros ctx c H. left. apply (visit_compareStatement_well_tagged ctx c H).
  - intros v. left. reflexivity.
  - intros c [H|H]; unfold toggle_exclude; cbn [exclude]; rewrite H; auto.
Qed.

Lemma toggle_exclude_twice c :
  exclude c = None \/ exclude c = Some true -> toggle_exclude (toggle_exclude c) = c.
Proof. destruct c as [ty k f v a b e]. cbn [exclude]. intros [->| ->]; reflexivity. Qed.

Lemma toggle_exclude_parity c n :
  exclude c = None \/ exclude c = Some true ->
  Nat.iter n toggle_exclude c = if Nat.even n then c else toggle_exclude c.
Proof.
  intros Hc. induction n as [|n IH]; [reflexivity|].
  rewrite Nat.iter_succ, IH, Nat.even_succ, <- Nat.negb_even.
  destruct (Nat.even n); cbn [negb]; [reflexivity|apply toggle_exclude_twice, Hc].
Qed.

(** X15. Wrappers cancel in pairs around any statement, one that is itself
    a negation included: behind an even number of [NOT] and [-] the
    filter is the one of the statement, behind an odd number it is that
    filter toggled once. *)
Theorem wrappers_cancel_in_pairs (x : text) (c : Filter) (ws : list wrapper) :
  one_of statement_first (LA (tokenize x)) = true ->
  parse x = Normal [Some c] ->
  parse (wrapped ws x)
  = Normal [Some (if Nat.even (length ws) then c else toggle_exclude c)].
Proof.
  intros Hx Hc. destruct (parse_wrapped ws x c Hx Hc) as [-> _].
  rewrite toggle_exclude_parity; [reflexivity|].
  apply (parse_filters (fun c => exclude c = None \/ exclude c = Some true)
           visit_statement_exclude x [Some c] c Hc). left. reflexivity.
Qed.

Lemma wrappers_cancel_in_pairs_witness :
  parse (js "NOT NOT -x") = Normal [Some (with_exclude (Term_filter (js "x")))].
Proof.
  apply (wrappers_cancel_in_pairs (js "-x") (with_exclude (Term_filter (js "x")))
           [NOT_wrapper; NOT_wrapper]).
  - vm_compute. reflexivity.
  - vm_compute. reflexivity.
Defined.

(** ** What the lexer emits *)

Lemma tokenize_loop_tokens fuel t tok :
  In tok (tokenize_loop fuel t) ->
  skipped (tokenType tok) = false
  /\ exists s n, PATTERN (tokenType tok) s = Some n /\ image tok = firstn n s.
Proof.
  revert t. induction fuel as [|fuel IH]; intros t; [intros []|].
  destruct t as [|c r]; [intros []|]. rewrite tokenize_loop_step.
  destruct (first_match tokens (c :: r)) as [[ty n]|] eqn:E; [|apply IH].
  cbv zeta. apply first_match_PATTERN in E.
  destruct (skipped ty) eqn:Es; [apply IH|].
  intros [<-|Hin]; [|exact (IH _ Hin)].
  split; [exact Es|]. exists (c :: r), n. split; [exact E|reflexivity].
Qed.

Lemma tokenize_loop_lengths fuel t :
  image_lengths (tokenize_loop fuel t) <= length t.
Proof.
  revert t. induction fuel as [|fuel IH]; intros t; [cbn; lia|].
  destruct t as [|c r]; [cbn; lia|]. rewrite tokenize_loop_step.
  destruct (first_match tokens (c :: r)) as [[ty n]|] eqn:E.
  - apply first_match_bounds in E. cbv zeta.
    pose proof (IH (skipn n (c :: r))) as Hrest. rewrite length_skipn in Hrest.
    destruct (skipped ty); [lia|].
    change (image_lengths (?tok :: ?ts))
      with (length (image tok) + image_lengths ts).
    cbn [image]. rewrite length_firstn. lia.
  - pose proof (IH r). cbn [length]. lia.
Qed.

Lemma laid_out_from t k k' toks : k <= k' -> laid_out t k' toks -> laid_out t k toks.
Proof.
  destruct toks as [|tok more]; [intros _ _; exact I|].
  intros Hk (j & Hj & H). exists j. split; [lia|exact H].
Qed.

Lemma laid_out_In t k toks tok :
  laid_out t k toks -> In tok toks -> exists j, matched_at t j tok.
Proof.
  revert k. induction toks as [|tok0 more IH]; intros k; [intros _ []|].
  intros (j & _ & Hm & Hmore) [<-|Hin]; [exists j; exact Hm|].
  exact (IH _ Hmore Hin).
Qed.

(** The scanning loop, started on the text from offset [k] on. *)
Lemma tokenize_loop_laid_out fuel t k :
  k <= length t -> laid_out t k (tokenize_loop fuel (skipn k t)).
Proof.
  revert k. induction fuel as [|fuel IH]; intros k Hk; [exact I|].
  destruct (skipn k t) as [|c r] eqn:Es; [exact I|].
  rewrite tokenize_loop_step.
  assert (Hlen : length (c :: r) = length t - k)
    by (rewrite <- Es; apply length_skipn).
  destruct (first_match tokens (c :: r)) as [[ty n]|] eqn:E.
  - pose proof (first_match_bounds _ _ _ _ E) as Hn. cbv zeta.
    assert (Hrest : laid_out t (k + n) (tokenize_loop fuel (skipn n (c :: r)))).
    { rewrite <- Es, skipn_skipn, (Nat.add_comm n k). apply IH. lia. }
    destruct (skipped ty); [apply (laid_out_from t k (k + n)); [lia|exact Hrest]|].
    assert (Himg : length (firstn n (c :: r)) = n)
      by (rewrite length_firstn; lia).
    exists k. unfold matched_at. cbn [image tokenType]. rewrite Himg, Es.
    split; [lia|]. split; [|exact Hrest].
    split; [lia|]. split; [exact E|].
    split; [exact (first_match_PATTERN _ _ _ _ E)|reflexivity].
  - apply (laid_out_from t k (S k)); [lia|].
    replace r with (skipn (S k) t); [apply IH; cbn [length] in Hlen; lia|].
    change (S k) with (1 + k). rewrite <- skipn_skipn, Es. reflexivity.
Qed.

(** X17. The lexer never emits an empty token, a white-space token or an
    end-of-input token; each token is what the lexer's patterns take at
    an offset of the input text, its image being that part of the text;
    the tokens lie in the text in their order and without overlap; and
    the images together are no longer than the text. *)
Theorem tokens_are_nonempty_matches (t : text) :
  (forall tok, In tok (tokenize t) ->
     image tok <> [] /\ tokenType tok <> SP /\ tokenType tok <> EOF
     /\ exists k, matched_at t k tok)
  /\ laid_out t 0 (tokenize t)
  /\ image_lengths (tokenize t) <= length t.
Proof.
  assert (Hlaid : laid_out t 0 (tokenize t))
    by (apply (tokenize_loop_laid_out (length t) t 0); lia).
  split; [|split; [exact Hlaid|apply tokenize_loop_lengths]].
  intros tok Hin. destruct (tokenize_loop_tokens _ _ _ Hin) as (Hs & s & n & Hp & Hi).
  pose proof (PATTERN_bounds _ _ _ Hp) as Hb.
  split; [|split; [|split]].
  - rewrite Hi. destruct s; [cbn in Hb; lia|]. destruct n; [lia|discriminate].
  - intros E. rewrite E in Hs. discriminate Hs.
  - intros E. rewrite E in Hp. discriminate Hp.
  - exact (laid_out_In _ _ _ _ Hlaid Hin).
Qed.

(** ** Texts that are one term *)

Lemma span_mono (p q : code_unit -> bool) t :
  (forall c, p c = true -> q c = true) -> span p t <= span q t.
Proof.
  intros Hpq. induction t as [|c r IH]; cbn [span]; [lia|].
  destruct (p c) eqn:E; [rewrite (Hpq c E); lia|lia].
Qed.

Lemma span_skipn_add q n t : n <= span q t -> n + span q (skipn n t) = span q t.
Proof.
  revert t. induction n as [|n IH]; intros t Hn; [reflexivity|].
  destruct t as [|c r]; [cbn in Hn; lia|]. cbn [span] in *.
  destruct (q c); [|lia]. cbn [skipn]. rewrite <- (IH r); lia.
Qed.

Lemma prefix_matches_span ps q t :
  Forall (fun p : code_unit -> bool => forall c, p c = true -> q c = true) ps ->
  prefix_matches ps t = true -> length ps <= span q t.
Proof.
  intros Hps. revert t. induction Hps as [|p ps Hp _ IH]; intros t; [cbn; lia|].
  destruct t as [|c r]; [discriminate|]. cbn [prefix_matches span length].
  intros H. apply andb_prop in H as [Hc Hr]. rewrite (Hp c Hc).
  specialize (IH r Hr). lia.
Qed.

Lemma span_app_le q e x :
  match x with [] => True | c :: _ => q c = false end ->
  span q (e ++ x) <= length e.
Proof.
  intros Hx. induction e as [|c e IH]; cbn [app span length].
  - destruct x as [|c r]; [cbn; lia|]. cbn [span]. rewrite Hx. lia.
  - destruct (q c); lia.
Qed.

Lemma span_covers q e x : length e <= span q (e ++ x) -> forallb q e = true.
Proof.
  induction e as [|c e IH]; [reflexivity|]. cbn [app span length forallb].
  destruct (q c); [|lia]. intros H. apply IH. lia.
Qed.

Lemma is_space_false c : (33 <= c <= 159)%N -> is_space c = false.
Proof.
  intros H. unfold is_space, between, eqc.
  rewrite (proj2 (N.leb_gt c 13)) by lia.
  rewrite (proj2 (N.leb_gt 8192 c)) by lia.
  repeat rewrite (proj2 (N.eqb_neq c _)) by lia.
  rewrite andb_false_r. reflexivity.
Qed.

Lemma is_id_part_range c :
  is_id_part c = true -> (48 <= c <= 122 /\ c <> 92 /\ c <> 58)%N.
Proof.
  unfold is_id_part, is_digit, between, eqc. intros H.
  repeat (apply orb_prop in H as [H|H]);
    try (apply andb_prop in H as [H1 H2]; apply N.leb_le in H1, H2; lia).
  apply N.eqb_eq in H. lia.
Qed.

Lemma is_id_start_part c : is_id_start c = true -> is_id_part c = true.
Proof.
  unfold is_id_start, is_id_part. intros H.
  repeat (apply orb_prop in H as [H|H]); rewrite H; rewrite ?orb_true_r; reflexivity.
Qed.

Lemma is_digit_part c : is_digit c = true -> is_id_part c = true.
Proof. unfold is_id_part. intros ->. rewrite ?orb_true_r. reflexivity. Qed.

Lemma is_id_part_solid c : is_id_part c = true -> solid c = true.
Proof.
  intros H. apply is_id_part_range in H as (H1 & H2 & _). unfold solid.
  rewrite (is_space_false c) by lia. unfold eqc, backslash.
  rewrite (proj2 (N.eqb_neq c 92)) by lia. reflexivity.
Qed.

Lemma is_id_part_term_char c : is_id_part c = true -> is_term_char c = true.
Proof.
  intros H. apply is_id_part_range in H as (H1 & H2 & H3). unfold is_term_char.
  rewrite (is_space_false c) by lia. unfold eqc, backslash, colon, dot.
  rewrite (proj2 (N.eqb_neq c 92)), (proj2 (N.eqb_neq c 58)), (proj2 (N.eqb_neq c 46)) by lia.
  reflexivity.
Qed.

Lemma chr_solid d : solid d = true -> forall c, chr d c = true -> solid c = true.
Proof. intros Hd c H. apply eqc_eq in H. subst c. exact Hd. Qed.

Lemma date_preds_solid l :
  l = date_part \/ l = date_part ++ time_part ++ zulu
  \/ l = date_part ++ time_part ++ offset_part ->
  Forall (fun p : code_unit -> bool => forall c, p c = true -> solid c = true) l.
Proof.
  assert (Hd : forall c, is_digit c = true -> solid c = true)
    by (intros c H; apply is_id_part_solid, is_digit_part, H).
  intros [->|[->| ->]]; cbn [date_part time_part zulu offset_part app];
    repeat constructor; try exact Hd; apply chr_solid; reflexivity.
Qed.

Lemma Some_inj {A} (a b : A) : Some a = Some b -> a = b.
Proof. intros [= H]. exact H. Qed.

(** What a pattern with [longer_alt: Term] matches holds neither white
    space nor a backslash. *)
Lemma PATTERN_solid ty t n :
  longer_alt ty = Some Term -> PATTERN ty t = Some n -> n <= span solid t.
Proof.
  destruct ty; try discriminate; intros _; cbn [PATTERN].
  - unfold Not_pattern, fixed.
    destruct (prefix_matches (literal "NOT") t) eqn:E; [|discriminate].
    intros [= <-]. apply (prefix_matches_span (literal "NOT") solid t); [|exact E].
    repeat constructor; apply chr_solid; reflexivity.
  - unfold ID_pattern.
    pose proof (span_mono is_id_start solid t
                  (fun c H => is_id_part_solid c (is_id_start_part c H))) as H1.
    destruct (span is_id_start t) as [|k] eqn:E; [discriminate|].
    intros Hn. apply Some_inj in Hn. subst n.
    pose proof (span_mono is_id_part solid (skipn (S k) t) is_id_part_solid) as H2.
    pose proof (span_skipn_add solid (S k) t H1). lia.
  - unfold DateLiteral_pattern.
    destruct (prefix_matches date_part t) eqn:E0; [|discriminate].
    destruct (prefix_matches (date_part ++ time_part ++ zulu) t) eqn:E1.
    { intros [= <-]. apply (prefix_matches_span _ solid t) in E1; [exact E1|].
      apply date_preds_solid. auto. }
    destruct (prefix_matches (date_part ++ time_part ++ offset_part) t) eqn:E2.
    { intros [= <-]. apply (prefix_matches_span _ solid t) in E2; [exact E2|].
      apply date_preds_solid. auto. }
    intros [= <-]. apply (prefix_matches_span _ solid t) in E0; [exact E0|].
    apply date_preds_solid. auto.
  - unfold NumberLiteral_pattern.
    pose proof (span_mono is_digit solid t
                  (fun c H => is_id_part_solid c (is_digit_part c H))) as H1.
    destruct (span is_digit t) as [|k] eqn:E; [discriminate|].
    pose proof (span_skipn_add solid (S k) t H1) as Hadd.
    destruct (skipn (S k) t) as [|c r] eqn:Er; [intros [= <-]; lia|].
    destruct (eqc c dot) eqn:Ec; [|intros [= <-]; lia].
    apply eqc_eq in Ec. subst c.
    pose proof (span_mono is_digit solid r
                  (fun c H => is_id_part_solid c (is_digit_part c H))) as H2.
    change (span solid (dot :: r)) with (S (span solid r)) in Hadd.
    destruct (span is_digit r); intros [= <-]; lia.
Qed.

Lemma term_run_app e x :
  term_run e = length e -> term_run (e ++ x) = length e + term_run x.
Proof.
  enough (H : forall k e, length e <= k -> term_run e = length e ->
                          term_run (e ++ x) = length e + term_run x)
    by (apply (H (length e)); lia).
  clear e. induction k as [|k IH]; intros [|c r] Hk; cbn [length] in Hk; try lia;
    try reflexivity.
  cbn [app term_run length].
  destruct (eqc c backslash).
  - destruct r as [|d r']; [discriminate|]. cbn [app length].
    destruct (is_term_escaped d); [|discriminate].
    intros [= H]. rewrite (IH r'); [lia| |exact H]. cbn [length] in Hk. lia.
  - destruct (is_term_char c); [|discriminate].
    intros [= H]. rewrite (IH r); [lia|lia|exact H].
Qed.

Lemma term_run_boundary x : at_boundary x = true -> term_run x = 0.
Proof.
  destruct x as [|c r]; [reflexivity|]. cbn [at_boundary term_run]. intros H.
  destruct (eqc c backslash) eqn:E.
  - apply eqc_eq in E. subst c. discriminate H.
  - unfold is_term_char. rewrite E, H. reflexivity.
Qed.

Lemma escapeTerm_solid e : forallb solid e = true -> escapeTerm e = e.
Proof.
  induction e as [|c r IH]; cbn [forallb escapeTerm]; [reflexivity|].
  intros H. apply andb_prop in H as [Hc Hr]. unfold solid in Hc.
  apply negb_true_iff, orb_false_iff in Hc as [_ Hc]. rewrite Hc, IH; trivial.
Qed.

Lemma opener_head_no_match ty c r :
  is_opener c = false ->
  one_of [SP; Minus; GTE; GT; LTE; LT; EQ; DoubleDot; Star; QuotedTerm] ty = true ->
  PATTERN ty (c :: r) = None.
Proof.
  unfold is_opener. rewrite !orb_false_iff.
  intros (((((Hspace & Hcolon) & Hdot) & Hquote) & Hstar) & Hminus) Hty.
  destruct ty; try discriminate Hty; cbn [PATTERN];
    unfold SP_pattern, Minus_pattern, GTE_pattern, GT_pattern, LTE_pattern,
           LT_pattern, EQ_pattern, DoubleDot_pattern, Star_pattern,
           QuotedTerm_pattern, fixed, literal, chr;
    cbn [js list_ascii_of_string map prefix_matches span];
    change (N_of_ascii ":") with colon; change (N_of_ascii ".") with dot;
    change (N_of_ascii "-") with minus;
    rewrite ?Hspace, ?Hcolon, ?Hdot, ?Hminus, ?Hstar, ?Hquote; reflexivity.
Qed.

Lemma first_match_term_text e x :
  term_text e -> at_boundary x = true ->
  exists ty, first_match tokens (e ++ x) = Some (ty, length e)
             /\ one_of [ID; DateLiteral; NumberLiteral; Term] ty = true
             /\ term_value (mkToken ty e) = escapeTerm e.
Proof.
  intros (Hne & Hrun & Hopen & Hnot) Hx.
  assert (HTerm : Term_pattern (e ++ x) = Some (length e)).
  { unfold Term_pattern. rewrite (term_run_app e x Hrun), (term_run_boundary x Hx), Nat.add_0_r.
    destruct e; [congruence|reflexivity]. }
  assert (Hstop : span solid (e ++ x) <= length e).
  { apply span_app_le. destruct x as [|c r]; [exact I|]. cbn [at_boundary] in Hx.
    unfold solid. rewrite Hx. reflexivity. }
  assert (Hskip : forall ty tys,
             one_of [SP; Minus; GTE; GT; LTE; LT; EQ; DoubleDot; Star; QuotedTerm] ty = true ->
             first_match (ty :: tys) (e ++ x) = first_match tys (e ++ x)).
  { intros ty tys Hty. destruct e as [|c r]; [congruence|]. cbn [hd] in Hopen.
    apply first_match_cons_None. apply (opener_head_no_match ty c (r ++ x) Hopen Hty). }
  assert (Halt : forall ty tys,
             longer_alt ty = Some Term ->
             (exists ty', first_match tys (e ++ x) = Some (ty', length e)
                          /\ one_of [ID; DateLiteral; NumberLiteral; Term] ty' = true
                          /\ term_value (mkToken ty' e) = escapeTerm e) ->
             exists ty', first_match (ty :: tys) (e ++ x) = Some (ty', length e)
                         /\ one_of [ID; DateLiteral; NumberLiteral; Term] ty' = true
                         /\ term_value (mkToken ty' e) = escapeTerm e).
  { intros ty tys Hl Hrest. cbn [first_match].
    destruct (PATTERN ty (e ++ x)) as [n|] eqn:E; [|exact Hrest].
    pose proof (PATTERN_solid ty (e ++ x) n Hl E) as Hn.
    unfold with_longer_alt. rewrite Hl. cbn [PATTERN]. rewrite HTerm.
    destruct (n <? length e) eqn:Elt.
    { exists Term. repeat split. }
    apply Nat.ltb_ge in Elt. assert (n = length e) by lia. subst n.
    exists ty. split; [reflexivity|].
    assert (Hsolid : escapeTerm e = e)
      by (apply escapeTerm_solid, (span_covers solid e x); lia).
    destruct ty; try discriminate Hl; (split; [try reflexivity|]);
      try (unfold term_value; cbn [tokenType image]; symmetry; exact Hsolid).
    exfalso. apply Hnot. cbn [PATTERN] in E. unfold Not_pattern, fixed in E.
    destruct (prefix_matches (literal "NOT") (e ++ x)) eqn:Ep; [|discriminate].
    injection E as E. apply prefix_matches_literal in Ep as [rest Ep].
    rewrite <- (firstn_app_exact e x), Ep, <- E. reflexivity. }
  unfold tokens.
  rewrite Hskip by reflexivity. apply Halt; [reflexivity|].
  rewrite Hskip by reflexivity. apply Halt; [reflexivity|].
  do 7 (rewrite Hskip by reflexivity).
  apply Halt; [reflexivity|]. apply Halt; [reflexivity|].
  rewrite Hskip by reflexivity.
  cbn [first_match PATTERN]. rewrite HTerm.
  exists Term. repeat split.
Qed.

Lemma tokenize_term_text e x :
  term_text e -> at_boundary x = true ->
  exists ty, tokenize (e ++ x) = mkToken ty e :: tokenize x
             /\ one_of [ID; DateLiteral; NumberLiteral; Term] ty = true
             /\ term_value (mkToken ty e) = escapeTerm e.
Proof.
  intros He Hx. destruct (first_match_term_text e x He Hx) as (ty & E & Hty & Hv).
  exists ty. split; [|split; assumption].
  rewrite (tokenize_first e x ty (proj1 He) E).
  destruct ty; try discriminate Hty; reflexivity.
Qed.

(** Tokens that are terms one after the other resolve to their Term
    filters, in order. *)
Lemma resolve_term_tokens ts :
  forallb (fun t => one_of [ID; DateLiteral; NumberLiteral; Term] (tokenType t)) ts = true ->
  resolve ts = Normal (map (fun t => Some (Term_filter (term_value t))) ts).
Proof.
  induction ts as [|[ty img] r IH]; [reflexivity|]. cbn [forallb tokenType].
  intros H. apply andb_prop in H as [Hty Hr].
  assert (E : SUBRULE statement_first [EOF] statement (mkToken ty img :: r)
              = Done (node_of (statement (statement_first ++ [EOF]) (mkToken ty img :: r))) r
              /\ visit_statement (node_of (statement (statement_first ++ [EOF])
                                             (mkToken ty img :: r)))
                 = Normal (Some (Term_filter (term_value (mkToken ty img))))).
  { destruct ty; try discriminate Hty; try (split; reflexivity).
    destruct r as [|[ty2 img2] r2]; [split; reflexivity|].
    cbn [forallb tokenType] in Hr. apply andb_prop in Hr as [Hty2 _].
    destruct ty2; try discriminate Hty2; split; reflexivity. }
  destruct E as [E Hv].
  assert (Hla : one_of statement_first (LA (mkToken ty img :: r)) = true)
    by (destruct ty; try discriminate Hty; reflexivity).
  rewrite (resolve_Done _ _ _ Hla E), Hv, (IH Hr). reflexivity.
Qed.

Lemma parse_term_text (e : text) :
  term_text e -> parse e = Normal [Some (Term_filter (escapeTerm e))].
Proof.
  intros He. destruct (tokenize_term_text e [] He eq_refl) as (ty & Htok & Hty & Hv).
  rewrite app_nil_r in Htok.
  change (parse e) with (resolve (tokenize e)). rewrite Htok.
  change (tokenize []) with (@nil IToken).
  rewrite resolve_term_tokens by (cbn [forallb tokenType]; rewrite Hty; reflexivity).
  cbn [map]. rewrite Hv. reflexivity.
Qed.

(** X1. A text that the Term pattern matches from end to end, that does not
    begin with a character of another token and is not the keyword
    [NOT], parses to one Term filter; its value is the text with its
    escapes undone by [escapeTerm]. *)
Theorem term_text_is_one_term (e : text) :
  term_text e -> parse e = Normal [Some (Term_filter (escapeTerm e))].
Proof.
  intros He. destruct (tokenize_term_text e [] He eq_refl) as (ty & Htok & Hty & Hv).
  rewrite app_nil_r in Htok.
  change (parse e) with (resolve (tokenize e)). rewrite Htok.
  change (tokenize []) with (@nil IToken).
  rewrite resolve_term_tokens by (cbn [forallb tokenType]; rewrite Hty; reflexivity).
  cbn [map]. rewrite Hv. reflexivity.
Qed.

Lemma term_text_is_one_term_witness :
  parse (js "last\ week-2\.0") = Normal [Some (Term_filter (js "last week-2.0"))].
Proof.
  apply (term_text_is_one_term (js "last\ week-2\.0")).
  repeat split; try reflexivity; discriminate.
Defined.

(** X5. Term texts separated by single spaces parse to their Term filters
    in the order of the text: one filter per statement. *)
Theorem spaced_terms_in_order (es : list text) :
  Forall term_text es ->
  parse (spaced es) = Normal (map (fun e => Some (Term_filter (escapeTerm e))) es).
Proof.
  intros Hes. change (parse (spaced es)) with (resolve (tokenize (spaced es))).
  enough (H : exists ts,
             tokenize (spaced es) = ts
             /\ forallb (fun t => one_of [ID; DateLiteral; NumberLiteral; Term] (tokenType t)) ts
                = true
             /\ map (fun t => Some (Term_filter (term_value t))) ts
                = map (fun e => Some (Term_filter (escapeTerm e))) es).
  { destruct H as (ts & -> & Hts & <-). apply resolve_term_tokens, Hts. }
  induction Hes as [|e rest He _ IH]; [exists []; repeat split|].
  destruct IH as (ts & Htok & Hts & Hmap). cbn [spaced].
  assert (Hb : at_boundary (match rest with [] => [] | _ :: _ => 32%N :: spaced rest end)
               = true) by (destruct rest; reflexivity).
  destruct (tokenize_term_text e _ He Hb) as (ty & E & Hty & Hv).
  exists (mkToken ty e :: ts). split; [|split].
  - etransitivity; [exact E|]. f_equal. destruct rest; [exact Htok|].
    rewrite tokenize_after_space. exact Htok.
  - cbn [forallb tokenType]. rewrite Hty, Hts. reflexivity.
  - cbn [map]. rewrite Hv, Hmap. reflexivity.
Qed.

Lemma spaced_terms_witness :
  parse (js "bug 42 NOTE 2020-01-01")
  = Normal [Some (Term_filter (js "bug")); Some (Term_filter (js "42"));
            Some (Term_filter (js "NOTE")); Some (Term_filter (js "2020-01-01"))].
Proof.
  apply (spaced_terms_in_order [js "bug"; js "42"; js "NOTE"; js "2020-01-01"]).
  repeat constructor; try reflexivity; discriminate.
Defined.

(** ** Escaping a value and parsing it back *)

Lemma escapeTerm_escape_term v :
  forallb escapable v = true -> escapeTerm (escape_term v) = v.
Proof.
  induction v as [|c r IH]; [reflexivity|]. cbn [forallb escape_term flat_map].
  fold (escape_term r). intros H. apply andb_prop in H as [Hc Hr].
  unfold escapable in Hc. apply andb_prop in Hc as [Hb Hl].
  apply negb_true_iff in Hb, Hl.
  destruct (is_term_escaped c); cbn [app escapeTerm].
  - change (eqc backslash backslash) with true. cbv iota. rewrite Hl, (IH Hr). reflexivity.
  - rewrite Hb, (IH Hr). reflexivity.
Qed.

Lemma term_run_escape_term v :
  forallb escapable v = true -> term_run (escape_term v) = length (escape_term v).
Proof.
  induction v as [|c r IH]; [reflexivity|]. cbn [forallb escape_term flat_map].
  fold (escape_term r). intros H. apply andb_prop in H as [Hc Hr].
  unfold escapable in Hc. apply andb_prop in Hc as [Hb _]. apply negb_true_iff in Hb.
  destruct (is_term_escaped c) eqn:Ee; cbn [app term_run length].
  - change (eqc backslash backslash) with true. cbv iota. rewrite Ee, (IH Hr). reflexivity.
  - rewrite Hb. unfold is_term_char. rewrite Hb.
    unfold is_term_escaped in Ee. rewrite <- orb_assoc in Ee.
    cbn [orb]. rewrite <- orb_assoc, Ee. cbn [negb]. rewrite (IH Hr). reflexivity.
Qed.

Lemma escape_term_NOT v : escape_term v = js "NOT" -> v = js "NOT".
Proof.
  assert (Hcase : forall c, (if is_term_escaped c then [backslash; c] else [c])
                            = [backslash; c]
                            \/ (if is_term_escaped c then [backslash; c] else [c]) = [c])
    by (intros c; destruct (is_term_escaped c); auto).
  destruct v as [|a [|b [|c [|d r]]]]; cbn [escape_term flat_map app];
    try (destruct (Hcase a) as [-> | ->]);
    try (destruct (Hcase b) as [-> | ->]);
    try (destruct (Hcase c) as [-> | ->]);
    try (destruct (Hcase d) as [-> | ->]);
    cbn [app]; intros H; try discriminate H; injection H as -> -> ->; reflexivity.
Qed.

(** X2. Writing a value with [escape_term] and parsing it gives the value
    back as one Term filter, for every value without backslash and line
    terminator that does not begin with a quote, a star or a minus and
    is not the word [NOT]. *)
Theorem escape_term_parses_back (v : text) :
  v <> [] ->
  forallb escapable v = true ->
  (eqc (hd 0%N v) quote || eqc (hd 0%N v) star || eqc (hd 0%N v) minus) = false ->
  v <> js "NOT" ->
  parse (escape_term v) = Normal [Some (Term_filter v)].
Proof.
  intros Hne Hv Hhd Hnot.
  rewrite <- (escapeTerm_escape_term v Hv) at 2.
  apply parse_term_text. repeat split.
  - destruct v as [|c r]; [congruence|]. cbn [escape_term flat_map].
    destruct (is_term_escaped c); discriminate.
  - apply term_run_escape_term, Hv.
  - destruct v as [|c r]; [congruence|]. cbn [escape_term flat_map hd] in *.
    destruct (is_term_escaped c) eqn:Ee; cbn [app hd]; [reflexivity|].
    unfold is_opener. unfold is_term_escaped in Ee.
    apply orb_false_iff in Hhd as [Hhd Hm]. apply orb_false_iff in Hhd as [Hq Hs].
    rewrite Ee, Hq, Hs, Hm. reflexivity.
  - intros E. apply Hnot, escape_term_NOT, E.
Qed.

Lemma escape_term_parses_back_witness :
  parse (js "fix\:\ v1\.2") = Normal [Some (Term_filter (js "fix: v1.2"))].
Proof.
  apply (escape_term_parses_back (js "fix: v1.2")); try reflexivity; discriminate.
Defined.

(** ** Quoted terms *)

Lemma first_match_quote r :
  first_match tokens (quote :: r) = first_match [QuotedTerm; Term] (quote :: r).
Proof. reflexivity. Qed.

Lemma tokenize_quoted r :
  quoted_body r = Some (length r) ->
  tokenize (quote :: r) = [mkToken QuotedTerm (quote :: r)].
Proof.
  intros H. rewrite <- (app_nil_r (quote :: r)) at 1.
  rewrite (tokenize_first (quote :: r) [] QuotedTerm); [reflexivity|discriminate|].
  rewrite app_nil_r, first_match_quote. cbn [first_match PATTERN].
  unfold QuotedTerm_pattern. change (eqc quote quote) with true. cbv iota.
  rewrite H. reflexivity.
Qed.

Lemma quoted_body_quote_body v rest :
  forallb (fun c => negb (eqc c backslash)) v = true ->
  quoted_body (quote_body v ++ quote :: rest) = Some (S (length (quote_body v))).
Proof.
  induction v as [|c r IH]; cbn [forallb quote_body flat_map app quoted_body].
  - intros _. change (eqc quote quote) with true. reflexivity.
  - fold (quote_body r). intros H. apply andb_prop in H as [Hc Hr].
    apply negb_true_iff in Hc. destruct (eqc c quote) eqn:Eq; cbn [app quoted_body length].
    + change (eqc backslash quote) with false. change (eqc backslash backslash) with true.
      change (eqc quote quote) with true. cbv iota. rewrite (IH Hr). reflexivity.
    + rewrite Eq, Hc, (IH Hr). reflexivity.
Qed.

Lemma json_string_body_quote_body v :
  forallb json_plain v = true ->
  json_string_body (quote_body v ++ [quote]) = Some (v, []).
Proof.
  induction v as [|c r IH]; cbn [forallb quote_body flat_map app json_string_body].
  - intros _. change (eqc quote quote) with true. reflexivity.
  - fold (quote_body r). intros H. apply andb_prop in H as [Hc Hr].
    unfold json_plain in Hc. apply andb_prop in Hc as [Hb Hl].
    apply negb_true_iff in Hb, Hl.
    destruct (eqc c quote) eqn:Eq; cbn [app json_string_body].
    + apply eqc_eq in Eq. subst c.
      change (eqc backslash quote) with false. change (eqc backslash backslash) with true.
      change (eqc quote 117%N) with false. cbv iota.
      change (json_escape quote) with (Some quote). rewrite (IH Hr). reflexivity.
    + rewrite Eq, Hb, Hl, (IH Hr). reflexivity.
Qed.

Lemma json_plain_no_backslash v :
  forallb json_plain v = true -> forallb (fun c => negb (eqc c backslash)) v = true.
Proof.
  induction v as [|c r IH]; [reflexivity|]. cbn [forallb]. intros H.
  apply andb_prop in H as [Hc Hr]. unfold json_plain in Hc.
  apply andb_prop in Hc as [-> _]. exact (IH Hr).
Qed.

(** X3. A value without backslash and control character, written between
    quotes with its own quotes escaped, parses to one Term filter with
    exactly that value: spaces, colons and dots inside the quotes are
    part of the value. *)
Theorem quote_term_parses_back (v : text) :
  forallb json_plain v = true ->
  parse (quote_term v) = Normal [Some (Term_filter v)].
Proof.
  intros Hv. unfold parse, quote_term.
  rewrite tokenize_quoted.
  - unfold parser_statements, visit_statements. cbn -[JSON_parse].
    unfold JSON_parse. change (span is_json_space (quote :: ?r)) with 0.
    cbn [skipn]. change (eqc quote quote) with true. cbv iota.
    rewrite (json_string_body_quote_body v Hv). reflexivity.
  - rewrite (quoted_body_quote_body v [] (json_plain_no_backslash v Hv)), length_app, Nat.add_1_r.
    reflexivity.
Qed.

Lemma quote_term_parses_back_witness :
  parse (quote :: js "hello world: a.b" ++ [quote])
  = Normal [Some (Term_filter (js "hello world: a.b"))].
Proof.
  apply (quote_term_parses_back (js "hello world: a.b")). reflexivity.
Defined.

Lemma quoted_body_plain b rest :
  forallb (fun c => negb (eqc c quote) && negb (eqc c backslash)) b = true ->
  quoted_body (b ++ quote :: rest) = Some (S (length b)).
Proof.
  induction b as [|c r IH]; cbn [forallb app quoted_body length].
  - intros _. change (eqc quote quote) with true. reflexivity.
  - intros H. apply andb_prop in H as [Hc Hr]. apply andb_prop in Hc as [Hq Hb].
    apply negb_true_iff in Hq, Hb. rewrite Hq, Hb, (IH Hr). reflexivity.
Qed.

Lemma json_string_body_control b :
  forallb (fun c => negb (eqc c quote) && negb (eqc c backslash)) b = true ->
  existsb (fun c => N.ltb c 32) b = true ->
  json_string_body (b ++ [quote]) = None.
Proof.
  induction b as [|c r IH]; cbn [forallb existsb app json_string_body]; [discriminate|].
  intros H Hex. apply andb_prop in H as [Hc Hr]. apply andb_prop in Hc as [Hq Hb].
  apply negb_true_iff in Hq, Hb. rewrite Hq, Hb.
  destruct (N.ltb c 32); [reflexivity|]. cbn [orb] in Hex. rewrite (IH Hr Hex). reflexivity.
Qed.

(** X4. A quoted term with a control character (a tab, a line feed, ...)
    between its quotes is one QuotedTerm token, and [parse] throws a
    SyntaxError on it. *)
Theorem quoted_control_character_throws (b : text) :
  forallb (fun c => negb (eqc c quote) && negb (eqc c backslash)) b = true ->
  existsb (fun c => N.ltb c 32) b = true ->
  tokenize (quote :: b ++ [quote]) = [mkToken QuotedTerm (quote :: b ++ [quote])]
  /\ parse (quote :: b ++ [quote]) = Throw SyntaxError.
Proof.
  intros Hb Hex.
  assert (Htok : tokenize (quote :: b ++ [quote])
                 = [mkToken QuotedTerm (quote :: b ++ [quote])]).
  { apply tokenize_quoted. rewrite (quoted_body_plain b [] Hb), length_app, Nat.add_1_r.
    reflexivity. }
  split; [exact Htok|]. unfold parse. rewrite Htok.
  unfold parser_statements, visit_statements. cbn -[JSON_parse].
  unfold JSON_parse. change (span is_json_space (quote :: ?r)) with 0.
  cbn [skipn]. change (eqc quote quote) with true. cbv iota.
  rewrite (json_string_body_control b Hb Hex). reflexivity.
Qed.

Lemma quoted_control_character_witness :
  parse (quote :: js "two" ++ [10%N] ++ js "lines" ++ [quote]) = Throw SyntaxError.
Proof.
  apply (quoted_control_character_throws (js "two" ++ [10%N] ++ js "lines")); reflexivity.
Defined.

(** ** Field names, operators and numbers in the text *)

Lemma is_id_part_not_opener c : is_id_part c = true -> is_opener c = false.
Proof.
  intros H. apply is_id_part_range in H as (H1 & H2 & H3). unfold is_opener.
  rewrite (is_space_false c) by lia. unfold eqc, colon, dot, quote, star, minus.
  repeat rewrite (proj2 (N.eqb_neq c _)) by lia. reflexivity.
Qed.

Lemma term_run_id_part f : forallb is_id_part f = true -> term_run f = length f.
Proof.
  induction f as [|c r IH]; [reflexivity|]. cbn [forallb]. intros H.
  apply andb_prop in H as [Hc Hr].
  rewrite (term_run_char c r (is_id_part_term_char c Hc)), (IH Hr). reflexivity.
Qed.

Lemma NOT_prefix_colon f r :
  f <> [] -> prefix_matches (literal "NOT") f = false ->
  prefix_matches (literal "NOT") (f ++ colon :: r) = false.
Proof.
  intros Hne H. destruct f as [|a [|b [|c f']]]; [congruence| | |exact H];
    cbn [app]; unfold literal; cbn [js list_ascii_of_string map prefix_matches];
    change (chr (N_of_ascii "O") colon) with false;
    change (chr (N_of_ascii "T") colon) with false;
    rewrite ?andb_false_r; reflexivity.
Qed.

Lemma first_match_identifier f r :
  identifier_text f -> first_match tokens (f ++ colon :: r) = Some (ID, length f).
Proof.
  intros (Hne & Hstart & Hpart & Hnot).
  assert (Hopen : is_opener (hd 0%N f) = false)
    by (apply is_id_part_not_opener, is_id_start_part, Hstart).
  assert (Hskip : forall ty tys,
             one_of [SP; Minus; GTE; GT; LTE; LT; EQ; DoubleDot; Star; QuotedTerm] ty = true ->
             first_match (ty :: tys) (f ++ colon :: r) = first_match tys (f ++ colon :: r)).
  { intros ty tys Hty. destruct f as [|c f']; [congruence|]. cbn [hd] in Hopen.
    apply first_match_cons_None. apply (opener_head_no_match ty c _ Hopen Hty). }
  unfold tokens. rewrite Hskip by reflexivity.
  rewrite first_match_cons_None
    by (cbn [PATTERN]; unfold Not_pattern, fixed; rewrite (NOT_prefix_colon f r Hne Hnot);
        reflexivity).
  rewrite Hskip by reflexivity. cbn [first_match PATTERN].
  assert (Hspan : span is_id_part (f ++ colon :: r) = length f)
    by (apply span_app_stop; [exact Hpart|reflexivity]).
  assert (Hid : ID_pattern (f ++ colon :: r) = Some (length f)).
  { unfold ID_pattern.
    pose proof (span_mono is_id_start is_id_part (f ++ colon :: r) is_id_start_part) as Hle.
    destruct (span is_id_start (f ++ colon :: r)) as [|k] eqn:E.
    - destruct f as [|c f']; [congruence|]. cbn [hd app span] in *.
      rewrite Hstart in E. discriminate E.
    - rewrite (span_skipn_add is_id_part (S k) _ Hle), Hspan. reflexivity. }
  rewrite Hid. unfold with_longer_alt. cbn [longer_alt PATTERN]. unfold Term_pattern.
  rewrite (term_run_app f (colon :: r) (term_run_id_part f Hpart)).
  change (term_run (colon :: r)) with 0. rewrite Nat.add_0_r.
  destruct f as [|c f']; [congruence|]. cbn [length at_least_one].
  rewrite Nat.ltb_irrefl. reflexivity.
Qed.

Lemma tokenize_identifier f r :
  identifier_text f ->
  tokenize (f ++ colon :: r) = mkToken ID f :: tokenize (colon :: r).
Proof.
  intros Hf. rewrite (tokenize_first f (colon :: r) ID (proj1 Hf) (first_match_identifier f r Hf)).
  reflexivity.
Qed.

(** The operators: the longest spelling at the colon is the token. *)
Lemma tokenize_EQ y :
  (eqc (hd 0%N y) 62 || eqc (hd 0%N y) 60)%N = false ->
  tokenize (colon :: y) = mkToken EQ [colon] :: tokenize y.
Proof.
  intros H. apply orb_false_iff in H as [Hgt Hlt].
  change (colon :: y) with ([colon] ++ y).
  rewrite (tokenize_first [colon] y EQ); [reflexivity|discriminate|].
  destruct y as [|c r]; [reflexivity|]. cbn [hd] in *. unfold tokens.
  cbn [first_match PATTERN app].
  unfold SP_pattern, Not_pattern, Minus_pattern, ID_pattern, GTE_pattern, GT_pattern,
         LTE_pattern, LT_pattern, EQ_pattern, fixed, literal, chr.
  cbn [js list_ascii_of_string map prefix_matches span].
  change (N_of_ascii ">") with 62%N. change (N_of_ascii "<") with 60%N.
  rewrite Hgt, Hlt. reflexivity.
Qed.

Lemma tokenize_relational y :
  tokenize (js ":>=" ++ y) = mkToken GTE (js ":>=") :: tokenize y
  /\ tokenize (js ":<=" ++ y) = mkToken LTE (js ":<=") :: tokenize y
  /\ (eqc (hd 0%N y) 61%N = false ->
      tokenize (js ":>" ++ y) = mkToken GT (js ":>") :: tokenize y
      /\ tokenize (js ":<" ++ y) = mkToken LT (js ":<") :: tokenize y).
Proof.
  split; [|split].
  - rewrite (tokenize_first (js ":>=") y GTE); [reflexivity|discriminate|reflexivity].
  - rewrite (tokenize_first (js ":<=") y LTE); [reflexivity|discriminate|reflexivity].
  - intros H. split.
    + rewrite (tokenize_first (js ":>") y GT); [reflexivity|discriminate|].
      destruct y as [|c r]; [reflexivity|]. cbn [hd] in H. unfold tokens.
      cbn [first_match PATTERN app js list_ascii_of_string map].
      unfold SP_pattern, Not_pattern, Minus_pattern, ID_pattern, GTE_pattern, GT_pattern,
             fixed, literal, chr.
      cbn [js list_ascii_of_string map prefix_matches span].
      change (N_of_ascii "=") with 61%N. rewrite H. reflexivity.
    + rewrite (tokenize_first (js ":<") y LT); [reflexivity|discriminate|].
      destruct y as [|c r]; [reflexivity|]. cbn [hd] in H. unfold tokens.
      cbn [first_match PATTERN app js list_ascii_of_string map].
      unfold SP_pattern, Not_pattern, Minus_pattern, ID_pattern, GTE_pattern, GT_pattern,
             LTE_pattern, LT_pattern, fixed, literal, chr.
      cbn [js list_ascii_of_string map prefix_matches span].
      change (N_of_ascii "=") with 61%N. rewrite H. reflexivity.
Qed.

Lemma tokenize_DoubleDot y :
  tokenize (js ".." ++ y) = mkToken DoubleDot (js "..") :: tokenize y.
Proof. rewrite (tokenize_first (js "..") y DoubleDot); [reflexivity|discriminate|reflexivity]. Qed.

Lemma tokenize_Star y : tokenize (star :: y) = mkToken Star [star] :: tokenize y.
Proof.
  change (star :: y) with ([star] ++ y).
  rewrite (tokenize_first [star] y Star); [reflexivity|discriminate|reflexivity].
Qed.

Lemma number_stop_head c r :
  number_stop (c :: r) = true ->
  is_digit c = false /\ eqc c minus = false /\ term_run (c :: r) = 0.
Proof.
  cbn [number_stop]. intros H. apply orb_prop in H as [H|H].
  - assert (Hd : is_digit c = false).
    { destruct (is_digit c) eqn:E; [|reflexivity].
      apply is_digit_part, is_id_part_not_opener in E. unfold is_opener in E.
      rewrite H in E. discriminate E. }
    assert (Hb : eqc c backslash = false)
      by (destruct (eqc c backslash) eqn:E; [apply eqc_eq in E; subst c; discriminate H|reflexivity]).
    assert (Hm : eqc c minus = false)
      by (destruct (eqc c minus) eqn:E; [apply eqc_eq in E; subst c; discriminate H|reflexivity]).
    repeat split; trivial. cbn [term_run]. unfold is_term_char. rewrite Hb, H. reflexivity.
  - apply andb_prop in H as [H _]. apply eqc_eq in H. subst c. repeat split.
Qed.

Lemma date_part_span t :
  prefix_matches date_part t = true -> span is_digit t = 4 /\ nth 4 t 0%N = minus.
Proof.
  destruct t as [|a [|b [|c [|d [|e r]]]]]; cbn [date_part prefix_matches];
    rewrite ?andb_false_r; try discriminate.
  intros H. apply andb_prop in H as [Ha H]. apply andb_prop in H as [Hb H].
  apply andb_prop in H as [Hc H]. apply andb_prop in H as [Hd H].
  apply andb_prop in H as [He _]. apply eqc_eq in He. subst e.
  cbn [span nth]. rewrite Ha, Hb, Hc, Hd. split; reflexivity.
Qed.

Lemma DateLiteral_pattern_digits d x :
  digits_text d -> number_stop x = true -> DateLiteral_pattern (d ++ x) = None.
Proof.
  intros (Hne & Hd) Hx. unfold DateLiteral_pattern.
  destruct (prefix_matches date_part (d ++ x)) eqn:E; [|reflexivity]. exfalso.
  pose proof (prefix_matches_length _ _ E) as Hlen. cbn [date_part length] in Hlen.
  apply date_part_span in E as [Hspan Hnth].
  assert (Hs : span is_digit (d ++ x) = length d).
  { apply span_app_stop; [exact Hd|].
    destruct x as [|c r]; [exact I|]. apply (number_stop_head c r Hx). }
  rewrite Hspan in Hs. rewrite app_nth2, <- Hs in Hnth by lia. cbn [Nat.sub] in Hnth.
  destruct x as [|c r].
  - rewrite length_app, <- Hs in Hlen. cbn [length] in Hlen. lia.
  - cbn [nth] in Hnth. subst c. discriminate Hx.
Qed.

Lemma first_match_digits d x :
  digits_text d -> number_stop x = true ->
  first_match tokens (d ++ x) = Some (NumberLiteral, length d).
Proof.
  intros Hd Hx. pose proof Hd as (Hne & Hall).
  destruct d as [|c d']; [congruence|]. cbn [forallb] in Hall.
  apply andb_prop in Hall as [Hc Hd'].
  change ((c :: d') ++ x) with (c :: (d' ++ x)).
  rewrite (first_match_digit c (d' ++ x) Hc). cbn [first_match PATTERN].
  change (c :: (d' ++ x)) with ((c :: d') ++ x).
  rewrite (DateLiteral_pattern_digits (c :: d') x Hd Hx).
  assert (Hs : span is_digit ((c :: d') ++ x) = length (c :: d')).
  { apply span_app_stop; [exact (proj2 Hd)|].
    destruct x as [|c2 r]; [exact I|]. apply (number_stop_head c2 r Hx). }
  assert (Hn : NumberLiteral_pattern ((c :: d') ++ x) = Some (length (c :: d'))).
  { unfold NumberLiteral_pattern. rewrite Hs.
    change (length (c :: d')) with (S (length d')). cbv iota beta.
    rewrite (skipn_app_exact (c :: d') x : skipn (S (length d')) ((c :: d') ++ x) = x).
    destruct x as [|c2 r]; [reflexivity|]. cbn [number_stop] in Hx.
    destruct (eqc c2 dot) eqn:Edot; [|reflexivity].
    apply eqc_eq in Edot. subst c2.
    change (is_space dot) with false in Hx. change (eqc dot dot) with true in Hx.
    cbn [orb andb] in Hx.
    destruct r as [|c3 r']; [reflexivity|]. cbn [span].
    apply negb_true_iff in Hx. rewrite Hx. reflexivity. }
  rewrite Hn. unfold with_longer_alt. cbn [longer_alt PATTERN]. unfold Term_pattern.
  assert (Hrun : term_run (c :: d') = length (c :: d')).
  { apply term_run_id_part. cbn [forallb]. rewrite (is_digit_part c Hc).
    clear - Hd'. induction d' as [|a r IH]; [reflexivity|]. cbn [forallb] in *.
    apply andb_prop in Hd' as [Ha Hr]. rewrite (is_digit_part a Ha). exact (IH Hr). }
  rewrite (term_run_app (c :: d') x Hrun).
  assert (Hx0 : term_run x = 0)
    by (destruct x as [|c2 r]; [reflexivity|apply (number_stop_head c2 r Hx)]).
  rewrite Hx0, Nat.add_0_r. cbn [length at_least_one]. rewrite Nat.ltb_irrefl. reflexivity.
Qed.

Lemma tokenize_digits d x :
  digits_text d -> number_stop x = true ->
  tokenize (d ++ x) = mkToken NumberLiteral d :: tokenize x.
Proof.
  intros Hd Hx.
  rewrite (tokenize_first d x NumberLiteral (proj1 Hd) (first_match_digits d x Hd Hx)).
  reflexivity.
Qed.

Lemma tokenize_EQ_digits a x :
  digits_text a -> tokenize (colon :: a ++ x) = mkToken EQ [colon] :: tokenize (a ++ x).
Proof.
  intros (Hne & Hd). apply tokenize_EQ. destruct a as [|c r]; [congruence|].
  cbn [forallb app hd] in *. apply andb_prop in Hd as [Hc _].
  each_digit c Hc; reflexivity.
Qed.

Lemma digits_text_head d :
  digits_text d ->
  (eqc (hd 0%N d) 62 || eqc (hd 0%N d) 60)%N = false /\ eqc (hd 0%N d) 61%N = false.
Proof.
  intros (Hne & Hd). destruct d as [|c r]; [congruence|]. cbn [forallb hd] in *.
  apply andb_prop in Hd as [Hc _]. each_digit c Hc; split; reflexivity.
Qed.

(** ** Statements in the text *)

Lemma resolve_field_tokens f eq t :
  tokenType f = ID -> tokenType eq = EQ ->
  one_of [ID; DateLiteral; NumberLiteral; Term] (tokenType t) = true ->
  resolve [f; eq; t] = Normal [Some (Field_filter (image f) (term_value t))].
Proof.
  destruct f as [fty fimg], eq as [ety eimg], t as [tty timg]. cbn [tokenType image].
  intros -> -> Ht. destruct tty; try discriminate Ht; reflexivity.
Qed.

Lemma resolve_compare_tokens f op t :
  tokenType f = ID -> one_of [GT; GTE; LT; LTE] (tokenType op) = true ->
  one_of [NumberLiteral; DateLiteral] (tokenType t) = true ->
  resolve [f; op; t]
  = Normal [Some (Compare_filter (compare_type (tokenType op))
                    (kind_name (compare_type (tokenType op))) (image f) (coerced t))].
Proof.
  destruct f as [fty fimg], op as [oty oimg], t as [tty timg]. cbn [tokenType image].
  intros -> Hop Ht.
  destruct tty; try discriminate Ht; destruct oty; try discriminate Hop; reflexivity.
Qed.

Lemma open_range_resolves f eq a dd st :
  tokenType f = ID -> tokenType eq = EQ -> tokenType dd = DoubleDot ->
  tokenType st = Star ->
  one_of [NumberLiteral; DateLiteral] (tokenType a) = true ->
  resolve [f; eq; st; dd; a]
  = Normal [Some (Compare_filter FilterType.LTE "LTE" (image f) (coerced a))]
  /\ resolve [f; eq; a; dd; st]
     = Normal [Some (if truthy (coerced a)
                     then Compare_filter FilterType.GTE "GTE" (image f) (coerced a)
                     else Compare_filter FilterType.LTE "LTE" (image f) Undefined)].
Proof.
  destruct f as [fty fimg], eq as [ety eimg], a as [aty aimg],
           dd as [dty dimg], st as [sty simg].
  cbn [tokenType image]. intros -> -> -> -> Ha.
  destruct aty; try discriminate Ha; (split; [reflexivity|]);
    unfold coerced, resolve, parser_statements, visit_statements;
    cbn -[truthy Number];
    match goal with
    | |- context [truthy ?x] => destruct (truthy x)
    end; reflexivity.
Qed.

(** X6. [field:value] with a field name and a term text as value is one
    Field filter; the value is unescaped like a term. *)
Theorem field_statement_text (f e : text) :
  identifier_text f -> term_text e ->
  (eqc (hd 0%N e) 62 || eqc (hd 0%N e) 60)%N = false ->
  parse (f ++ colon :: e) = Normal [Some (Field_filter f (escapeTerm e))].
Proof.
  intros Hf He Hhd. change (parse ?t) with (resolve (tokenize t)).
  rewrite (tokenize_identifier f e Hf), (tokenize_EQ e Hhd).
  destruct (tokenize_term_text e [] He eq_refl) as (ty & Htok & Hty & Hv).
  rewrite app_nil_r in Htok. rewrite Htok. change (tokenize []) with (@nil IToken).
  rewrite resolve_field_tokens; try reflexivity; [|exact Hty].
  cbn [image]. rewrite Hv. reflexivity.
Qed.

Lemma field_statement_text_witness :
  parse (js "status:open") = Normal [Some (Field_filter (js "status") (js "open"))].
Proof.
  apply (field_statement_text (js "status") (js "open")).
  - repeat split; try reflexivity; discriminate.
  - repeat split; try reflexivity; discriminate.
  - reflexivity.
Defined.

(** X8. [field>number] for the four relational operators, spelled [:>],
    [:>=], [:<], [:<=]: one comparison filter of the operator's kind
    with the number as value. *)
Theorem compare_statement_text (f d : text) :
  identifier_text f -> digits_text d ->
  parse (f ++ js ":>" ++ d)
    = Normal [Some (Compare_filter FilterType.GT "GT" f (Num (Number d)))]
  /\ parse (f ++ js ":>=" ++ d)
    = Normal [Some (Compare_filter FilterType.GTE "GTE" f (Num (Number d)))]
  /\ parse (f ++ js ":<" ++ d)
    = Normal [Some (Compare_filter FilterType.LT "LT" f (Num (Number d)))]
  /\ parse (f ++ js ":<=" ++ d)
    = Normal [Some (Compare_filter FilterType.LTE "LTE" f (Num (Number d)))].
Proof.
  intros Hf Hd. destruct (digits_text_head d Hd) as [_ Heq].
  destruct (tokenize_relational d) as (Hgte & Hlte & Hstrict).
  destruct (Hstrict Heq) as [Hgt Hlt].
  pose proof (tokenize_digits d [] Hd eq_refl) as Hnum. rewrite app_nil_r in Hnum.
  change (tokenize []) with (@nil IToken) in Hnum.
  repeat split; change (parse ?t) with (resolve (tokenize t)).
  - change (f ++ js ":>" ++ d) with (f ++ colon :: 62%N :: d).
    rewrite (tokenize_identifier f _ Hf).
    change (colon :: 62%N :: d) with (js ":>" ++ d). rewrite Hgt, Hnum.
    apply resolve_compare_tokens; reflexivity.
  - change (f ++ js ":>=" ++ d) with (f ++ colon :: 62%N :: 61%N :: d).
    rewrite (tokenize_identifier f _ Hf).
    change (colon :: 62%N :: 61%N :: d) with (js ":>=" ++ d). rewrite Hgte, Hnum.
    apply resolve_compare_tokens; reflexivity.
  - change (f ++ js ":<" ++ d) with (f ++ colon :: 60%N :: d).
    rewrite (tokenize_identifier f _ Hf).
    change (colon :: 60%N :: d) with (js ":<" ++ d). rewrite Hlt, Hnum.
    apply resolve_compare_tokens; reflexivity.
  - change (f ++ js ":<=" ++ d) with (f ++ colon :: 60%N :: 61%N :: d).
    rewrite (tokenize_identifier f _ Hf).
    change (colon :: 60%N :: 61%N :: d) with (js ":<=" ++ d). rewrite Hlte, Hnum.
    apply resolve_compare_tokens; reflexivity.
Qed.

Lemma compare_statement_text_witness :
  parse (js "age:>=21")
  = Normal [Some (Compare_filter FilterType.GTE "GTE" (js "age") (Num (Decimal 21 0)))].
Proof.
  destruct (compare_statement_text (js "age") (js "21")) as (_ & H & _).
  - repeat split; try reflexivity; discriminate.
  - split; [discriminate|reflexivity].
  - exact H.
Defined.

(** ** Ranges in the text, and the bound zero *)

Lemma digits_value_zero d acc v :
  forallb is_digit d = true -> digits_value acc d = Some v ->
  (v = 0%N <-> acc = 0%N /\ forallb (fun c => eqc c 48%N) d = true).
Proof.
  revert acc. induction d as [|c r IH]; intros acc; cbn [forallb digits_value].
  - intros _ [= <-]. tauto.
  - intros H. apply andb_prop in H as [Hc Hr]. rewrite Hc. intros Hv.
    rewrite (IH _ Hr Hv). unfold eqc.
    unfold is_digit, between in Hc. apply andb_prop in Hc as [H1 H2].
    apply N.leb_le in H1, H2. rewrite andb_true_iff, N.eqb_eq.
    split.
    + intros [Ha Hz]. split; [lia|]. split; [lia|exact Hz].
    + intros [Ha [Hc0 Hz]]. split; [lia|exact Hz].
Qed.

(** A number written with digits only is falsy exactly when all its
    digits are [0]. *)
Lemma Number_digits_value d v :
  digits_text d -> digits_value 0 d = Some v -> Number d = Decimal v 0.
Proof.
  intros (Hne & Hd) Hv. unfold Number. cbv zeta.
  pose proof (span_app_stop is_digit d [] Hd I) as Hs. rewrite app_nil_r in Hs.
  rewrite Hs, skipn_all, Hv. destruct d; [congruence|reflexivity].
Qed.

Lemma truthy_digits d :
  digits_text d ->
  truthy (Num (Number d)) = existsb (fun c => negb (eqc c 48%N)) d.
Proof.
  intros Hdt. pose proof Hdt as (Hne & Hd).
  destruct (digits_value_all d 0%N Hd) as [v Hv].
  rewrite (Number_digits_value d v Hdt Hv). cbn [truthy].
  pose proof (digits_value_zero d 0%N v Hd Hv) as Hz.
  assert (Hall : forallb (fun c => eqc c 48%N) d
                 = negb (existsb (fun c => negb (eqc c 48%N)) d)).
  { clear. induction d as [|c r IH]; [reflexivity|]. cbn [forallb existsb].
    rewrite IH. destruct (eqc c 48%N); reflexivity. }
  rewrite Hall in Hz. unfold rounds_to_zero.
  assert (Hp : (1 < 2 ^ 1075)%N) by (apply N.pow_gt_1; lia).
  change (10 ^ N.of_nat 0)%N with 1%N.
  destruct (existsb (fun c => negb (eqc c 48%N)) d); cbn [negb] in Hz.
  - assert (v <> 0%N) by (intros E; apply Hz in E as [_ E]; discriminate E).
    rewrite (proj2 (N.leb_gt _ _)); [reflexivity|]. nia.
  - assert (v = 0%N) by (apply Hz; auto). subst v. reflexivity.
Qed.

Lemma truthy_digits_all_zeros d :
  digits_text d -> truthy (Num (Number d)) = negb (all_zeros d).
Proof.
  intros Hd. rewrite (truthy_digits d Hd). unfold all_zeros.
  clear. induction d as [|c r IH]; [reflexivity|]. cbn [forallb existsb].
  rewrite IH. destruct (eqc c 48%N); reflexivity.
Qed.

(** X9. [field:a..b] with two whole numbers is a Range filter exactly when
    neither number is written with zeros only.  A left bound of zeros
    gives [LTE b] instead, a right bound of zeros [GTE a]. *)
Theorem range_statement_text (f a b : text) :
  identifier_text f -> digits_text a -> digits_text b ->
  parse (f ++ colon :: a ++ js ".." ++ b)
  = Normal [Some (if all_zeros a
                  then Compare_filter FilterType.LTE "LTE" f (Num (Number b))
                  else if all_zeros b
                  then Compare_filter FilterType.GTE "GTE" f (Num (Number a))
                  else Range_filter f (Num (Number a)) (Num (Number b)))].
Proof.
  intros Hf Ha Hb.
  change (parse ?t) with (resolve (tokenize t)).
  rewrite (tokenize_identifier f _ Hf), (tokenize_EQ_digits a _ Ha).
  rewrite (tokenize_digits a (js ".." ++ b) Ha eq_refl), tokenize_DoubleDot.
  pose proof (tokenize_digits b [] Hb eq_refl) as Hnum. rewrite app_nil_r in Hnum.
  rewrite Hnum. change (tokenize []) with (@nil IToken).
  rewrite range_statement_resolves by reflexivity.
  unfold coerced. cbn [tokenType image].
  rewrite (truthy_digits_all_zeros a Ha), (truthy_digits_all_zeros b Hb), !negb_involutive.
  reflexivity.
Qed.

Lemma range_statement_text_witness :
  parse (js "stars:00..50")
  = Normal [Some (Compare_filter FilterType.LTE "LTE" (js "stars") (Num (Decimal 50 0)))].
Proof.
  apply (range_statement_text (js "stars") (js "00") (js "50")).
  - repeat split; try reflexivity; discriminate.
  - split; [discriminate|reflexivity].
  - split; [discriminate|reflexivity].
Defined.

(** X10. The open ranges: [field:*..b] is [LTE b] whatever [b] is;
    [field:a..*] is [GTE a] unless [a] is written with zeros only, in
    which case it is an [LTE] filter without a value. *)
Theorem open_range_text (f a : text) :
  identifier_text f -> digits_text a ->
  parse (f ++ colon :: star :: js ".." ++ a)
    = Normal [Some (Compare_filter FilterType.LTE "LTE" f (Num (Number a)))]
  /\ parse (f ++ colon :: a ++ js "..*")
    = Normal [Some (if all_zeros a
                    then Compare_filter FilterType.LTE "LTE" f Undefined
                    else Compare_filter FilterType.GTE "GTE" f (Num (Number a)))].
Proof.
  intros Hf Ha.
  pose proof (tokenize_digits a [] Ha eq_refl) as Hnum. rewrite app_nil_r in Hnum.
  change (tokenize []) with (@nil IToken) in Hnum.
  split; change (parse ?t) with (resolve (tokenize t)).
  - rewrite (tokenize_identifier f _ Hf).
    rewrite (tokenize_EQ (star :: js ".." ++ a) eq_refl), tokenize_Star,
      tokenize_DoubleDot, Hnum.
    apply open_range_resolves; reflexivity.
  - rewrite (tokenize_identifier f _ Hf), (tokenize_EQ_digits a _ Ha).
    rewrite (tokenize_digits a (js "..*") Ha eq_refl).
    change (js "..*") with (js ".." ++ [star]).
    rewrite tokenize_DoubleDot, (tokenize_Star []). change (tokenize []) with (@nil IToken).
    destruct (open_range_resolves (mkToken ID f) (mkToken EQ [colon])
                (mkToken NumberLiteral a) (mkToken DoubleDot (js ".."))
                (mkToken Star [star])) as [_ H]; try reflexivity.
    rewrite H. unfold coerced. cbn [tokenType image].
    rewrite (truthy_digits_all_zeros a Ha). destruct (all_zeros a); reflexivity.
Qed.

Lemma open_range_text_witness :
  parse (js "stars:0..*")
  = Normal [Some (Compare_filter FilterType.LTE "LTE" (js "stars") Undefined)].
Proof.
  destruct (open_range_text (js "stars") (js "0")) as [_ H].
  - repeat split; try reflexivity; discriminate.
  - split; [discriminate|reflexivity].
  - exact H.
Defined.

(** ** White space in front, and how many filters there can be *)

Lemma span_app_all p ws x :
  forallb p ws = true -> span p (ws ++ x) = length ws + span p x.
Proof.
  induction ws as [|c r IH]; [reflexivity|]. cbn [forallb app span length].
  intros H. apply andb_prop in H as [Hc Hr]. rewrite Hc, (IH Hr). reflexivity.
Qed.

(** X19. White space in front of the input changes nothing. *)
Theorem leading_space_is_ignored (ws x : text) :
  forallb is_space ws = true -> parse (ws ++ x) = parse x.
Proof.
  intros Hws. unfold parse.
  rewrite (tokenize_skip_space (ws ++ x)), (tokenize_skip_space x).
  rewrite (span_app_all is_space ws x Hws), skipn_app.
  rewrite skipn_all2 by lia.
  replace (length ws + span is_space x - length ws) with (span is_space x) by lia.
  reflexivity.
Qed.

Lemma leading_space_witness :
  parse (js "   " ++ js "a:b") = parse (js "a:b").
Proof. apply (leading_space_is_ignored (js "   ") (js "a:b")). reflexivity. Defined.

Lemma MANY_statement_count fuel outer acc ts :
  length (statements_statement (node_of (MANY_statement fuel outer acc ts)))
  <= length acc + length ts.
Proof.
  revert acc ts. induction fuel as [|fuel IH]; intros acc ts; [cbn; lia|].
  rewrite MANY_statement_step.
  destruct (one_of statement_first (LA ts)) eqn:Hts.
  - assert (Hne : 1 <= length ts) by (destruct ts; [discriminate Hts|cbn; lia]).
    destruct (SUBRULE statement_first outer statement ts) as [s r|s r].
    + destruct (length r <? length ts) eqn:E.
      * apply Nat.ltb_lt in E. specialize (IH (acc ++ [s]) r).
        rewrite length_app in IH. cbn [length] in IH. lia.
      * cbn. rewrite length_app. cbn [length]. lia.
    + cbn. rewrite length_app. cbn [length]. lia.
  - destruct ts as [|t [|t2 r]]; cbn [node_of statements_statement length]; try lia.
    specialize (IH acc (t2 :: r)). cbn [length] in IH. lia.
Qed.

Lemma visit_each_length nodes cs :
  visit_each nodes = Normal cs -> length cs = length nodes.
Proof.
  revert cs. induction nodes as [|n more IH]; intros cs; cbn [visit_each].
  - intros [= <-]. reflexivity.
  - intros H. apply bind_Normal in H as (f & _ & H).
    apply bind_Normal in H as (fs & Hfs & [= <-]). cbn [length]. rewrite (IH fs Hfs).
    reflexivity.
Qed.

Lemma tokenize_loop_count fuel t :
  length (tokenize_loop fuel t) <= image_lengths (tokenize_loop fuel t).
Proof.
  assert (H : forall ts : list IToken,
             (forall tok, In tok ts -> image tok <> []) -> length ts <= image_lengths ts).
  { induction ts as [|tok ts IH]; [cbn; lia|]. intros Hall.
    change (image_lengths (tok :: ts)) with (length (image tok) + image_lengths ts).
    specialize (IH (fun t Ht => Hall t (or_intror Ht))).
    pose proof (Hall tok (or_introl eq_refl)). cbn [length].
    destruct (image tok); [congruence|cbn [length]; lia]. }
  apply H. intros tok Hin.
  destruct (tokenize_loop_tokens _ _ _ Hin) as (_ & s & n & Hp & Hi).
  pose proof (PATTERN_bounds _ _ _ Hp) as Hb. rewrite Hi.
  destruct s; [cbn in Hb; lia|]. destruct n; [lia|discriminate].
Qed.

(** X18. [parse] returns at most one filter per token, and so no more
    filters than the input has characters. *)
Theorem filters_are_bounded_by_input (input : text) (cs : list (option Filter)) :
  parse input = Normal cs ->
  length cs <= length (tokenize input) /\ length (tokenize input) <= length input.
Proof.
  unfold parse, visit_statements. intros H. apply visit_each_length in H.
  split.
  - rewrite H, parser_statements_node. unfold statements.
    pose proof (MANY_statement_count (S (length (tokenize input))) [EOF] [] (tokenize input)).
    cbn [length] in *. lia.
  - unfold tokenize. pose proof (tokenize_loop_count (length input) input).
    pose proof (tokenize_loop_lengths (length input) input). lia.
Qed.

Lemma filters_are_bounded_witness :
  length [Some (Term_filter (js "a")); Some (Term_filter (js "b"))]
    <= length (tokenize (js "a b"))
  /\ length (tokenize (js "a b")) <= length (js "a b").
Proof. apply (filters_are_bounded_by_input (js "a b")). vm_compute. reflexivity. Defined.

(** ** More about field statements *)

(** X7. A quoted value after the colon: the Field filter holds the value
    between the quotes. *)
Theorem field_with_quoted_value (f v : text) :
  identifier_text f -> forallb json_plain v = true ->
  parse (f ++ colon :: quote_term v) = Normal [Some (Field_filter f v)].
Proof.
  intros Hf Hv. change (parse ?t) with (resolve (tokenize t)).
  rewrite (tokenize_identifier f _ Hf), (tokenize_EQ (quote_term v) eq_refl).
  unfold quote_term. rewrite tokenize_quoted.
  - unfold resolve, parser_statements, visit_statements. cbn -[JSON_parse].
    unfold JSON_parse. change (span is_json_space (quote :: ?r)) with 0.
    cbn [skipn]. change (eqc quote quote) with true. cbv iota.
    rewrite (json_string_body_quote_body v Hv). reflexivity.
  - rewrite (quoted_body_quote_body v [] (json_plain_no_backslash v Hv)), length_app, Nat.add_1_r.
    reflexivity.
Qed.

Lemma field_with_quoted_value_witness :
  parse (js "label:" ++ quote_term (js "help wanted"))
  = Normal [Some (Field_filter (js "label") (js "help wanted"))].
Proof.
  apply (field_with_quoted_value (js "label") (js "help wanted")); [|reflexivity].
  repeat split; try reflexivity; discriminate.
Defined.

Lemma first_match_NOT_prefixed g r :
  g <> [] -> forallb is_id_part g = true ->
  first_match tokens (js "NOT" ++ g ++ colon :: r) = Some (Term, length (js "NOT" ++ g)).
Proof.
  intros Hne Hg. unfold tokens, with_longer_alt.
  change (js "NOT" ++ g ++ colon :: r) with (78%N :: 79%N :: 84%N :: (g ++ colon :: r)).
  cbn [first_match PATTERN]. change (SP_pattern (78%N :: ?x)) with (@None nat).
  change (Not_pattern (78%N :: 79%N :: 84%N :: ?x)) with (Some 3).
  unfold with_longer_alt. cbn [longer_alt PATTERN]. unfold Term_pattern.
  change (78%N :: 79%N :: 84%N :: (g ++ colon :: r)) with ((js "NOT" ++ g) ++ colon :: r).
  rewrite (term_run_app (js "NOT" ++ g) (colon :: r))
    by (apply term_run_id_part; rewrite forallb_app, Hg; reflexivity).
  change (term_run (colon :: r)) with 0. rewrite Nat.add_0_r, length_app.
  destruct g as [|c g']; [congruence|]. reflexivity.
Qed.

(** X12. A field name that begins with [NOT] is never a field: the lexer
    makes it a Term token, the colon is dropped, and the statement
    falls apart into two Term filters. *)
Theorem NOT_prefixed_field_is_two_terms (g e : text) :
  g <> [] -> forallb is_id_part g = true -> term_text e ->
  (eqc (hd 0%N e) 62 || eqc (hd 0%N e) 60)%N = false ->
  parse (js "NOT" ++ g ++ colon :: e)
  = Normal [Some (Term_filter (js "NOT" ++ g)); Some (Term_filter (escapeTerm e))].
Proof.
  intros Hne Hg He Hhd. change (parse ?t) with (resolve (tokenize t)).
  change (js "NOT" ++ g ++ colon :: e) with ((js "NOT" ++ g) ++ colon :: e).
  rewrite (tokenize_first (js "NOT" ++ g) (colon :: e) Term);
    [|discriminate|exact (first_match_NOT_prefixed g e Hne Hg)].
  cbn [skipped app]. rewrite (tokenize_EQ e Hhd).
  destruct (tokenize_term_text e [] He eq_refl) as (ty & Htok & Hty & Hv).
  rewrite app_nil_r in Htok. rewrite Htok. change (tokenize []) with (@nil IToken).
  assert (Hsolid : escapeTerm (78%N :: 79%N :: 84%N :: g) = 78%N :: 79%N :: 84%N :: g).
  { apply escapeTerm_solid. cbn [forallb]. change (solid 78%N) with true.
    change (solid 79%N) with true. change (solid 84%N) with true. cbn [andb].
    clear - Hg. induction g as [|c r IH]; [reflexivity|]. cbn [forallb] in *.
    apply andb_prop in Hg as [Hc Hr]. rewrite (is_id_part_solid c Hc). exact (IH Hr). }
  rewrite (resolve_Done _ (mkStatement None None None
                             (Some (mkTerm None None None
                                      (Some (mkToken Term (78%N :: 79%N :: 84%N :: g)))
                                      None)))
             (mkToken EQ [colon] :: [mkToken ty e])); try reflexivity.
  cbn [visit_statement visit_term term_Term term_identifier term_NumberLiteral
       term_DateLiteral image bind].
  rewrite Hsolid, resolve_skip by reflexivity.
  rewrite resolve_term_tokens by (cbn [forallb tokenType]; rewrite Hty; reflexivity).
  cbn [map bind]. rewrite Hv. reflexivity.
Qed.

Lemma NOT_prefixed_field_witness :
  parse (js "NOTES:x") = Normal [Some (Term_filter (js "NOTES")); Some (Term_filter (js "x"))].
Proof.
  apply (NOT_prefixed_field_is_two_terms (js "ES") (js "x")); try reflexivity.
  - discriminate.
  - repeat split; try reflexivity; discriminate.
Defined.

(** X11. A range between two dates is always a Range filter: a date object
    is truthy, whatever its text. *)
Theorem date_range_is_a_range (f eq a dd b : IToken) :
  tokenType f = ID -> tokenType eq = EQ -> tokenType dd = DoubleDot ->
  tokenType a = DateLiteral -> tokenType b = DateLiteral ->
  resolve [f; eq; a; dd; b]
  = Normal [Some (Range_filter (image f) (DateOf (image a)) (DateOf (image b)))].
Proof.
  intros Hf He Hd Ha Hb.
  rewrite (range_statement_resolves f eq a dd b Hf He Hd)
    by (rewrite ?Ha, ?Hb; reflexivity).
  unfold coerced. rewrite Ha, Hb. reflexivity.
Qed.

Lemma date_range_witness :
  parse (js "created:2020-01-01..2021-01-01")
  = Normal [Some (Range_filter (js "created") (DateOf (js "2020-01-01"))
                               (DateOf (js "2021-01-01")))].
Proof.
  apply (date_range_is_a_range (mkToken ID (js "created")) (mkToken EQ (js ":"))
           (mkToken DateLiteral (js "2020-01-01")) (mkToken DoubleDot (js ".."))
           (mkToken DateLiteral (js "2021-01-01"))); reflexivity.
Defined.
